(** * CRF slot extractor (modules/nlu, [CRFExtractor])

    A shallow embedding of the slot extractor: the training pipeline
    (word embeddings, k-means clusters, CRF), the feature vectorizer, the
    tagger entry point and the assembly of tagged tokens into a slot
    collection, followed by the properties of the specification that
    concern them.

    Strings are sequences of 8-bit code units; numbers that the code only
    compares or passes along are integers.  [async] functions are read
    sequentially: every [await] is a plain call whose exception, if any,
    leaves the enclosing function at that point. *)

From Stdlib Require Import String Ascii List ZArith Bool Lia DecimalString.
From stdpp Require Import base option gmap strings.
Import ListNotations.

Local Open Scope string_scope.
Local Open Scope list_scope.
Local Open Scope Z_scope.

(* ---------------------------------------------------------------------- *)
(** ** JavaScript values and string primitives *)

(** The values an [any]-typed field can hold, as far as this code looks at
    them. *)
Inductive jsval :=
| JUndefined
| JNull
| JBool (b : bool)
| JNum (n : Z)
| JStr (s : string).

(** What the code throws: [new Error(msg)] of this file, a [TypeError] of
    the runtime, or whatever an external capability raises. *)
Inductive exn :=
| Error (msg : string)
| TypeError
| External (what : string).

Inductive outcome (A : Type) :=
| Returned (a : A)
| Thrown (e : exn).
Arguments Returned {A} a.
Arguments Thrown {A} e.

(** [s.slice(n)] for [n >= 0]. *)
Fixpoint slice (n : nat) (s : string) : string :=
  match n, s with
  | O, _ => s
  | S n', String _ s' => slice n' s'
  | S _, EmptyString => EmptyString
  end.

(** [s[i]]: the one-unit string at index [i], [None] for [undefined]. *)
Definition charAt (i : nat) (s : string) : option string :=
  match String.get i s with
  | Some c => Some (String c EmptyString)
  | None => None
  end.

(** Case mapping, on the letters [a-z] and [A-Z]; every other code unit
    is its own upper and lower case. *)
Definition upperAscii (c : ascii) : ascii :=
  let n := nat_of_ascii c in
  if ((97 <=? n) && (n <=? 122))%nat then ascii_of_nat (n - 32) else c.

Definition lowerAscii (c : ascii) : ascii :=
  let n := nat_of_ascii c in
  if ((65 <=? n) && (n <=? 90))%nat then ascii_of_nat (n + 32) else c.

Fixpoint mapString (f : ascii -> ascii) (s : string) : string :=
  match s with
  | EmptyString => EmptyString
  | String c s' => String (f c) (mapString f s')
  end.

Definition toUpperCase : string -> string := mapString upperAscii.
Definition toLowerCase : string -> string := mapString lowerAscii.

(** [xs.join(sep)]. *)
Fixpoint join (sep : string) (xs : list string) : string :=
  match xs with
  | [] => ""
  | [x] => x
  | x :: rest => x +:+ sep +:+ join sep rest
  end.

(** [n.toString()] of an integer. *)
Definition numToString (n : Z) : string :=
  NilZero.string_of_int (Z.to_int n).

(** [_.zip(xs, ys)]: as long as the longer array, the shorter one padded
    with [undefined]. *)
Fixpoint lodash_zip {A B : Type} (xs : list A) (ys : list B)
  : list (option A * option B) :=
  match xs with
  | [] => map (fun y => (None, Some y)) ys
  | x :: xs' =>
      match ys with
      | [] => map (fun x' => (Some x', None)) xs
      | y :: ys' => (Some x, Some y) :: lodash_zip xs' ys'
      end
  end.

(** A pair of [_.zip] with both components. *)
Definition bothDefined {A B : Type} (p : option A * option B) : bool :=
  match p with
  | (Some _, Some _) => true
  | _ => false
  end.

(* ---------------------------------------------------------------------- *)
(** ** Data model ([typings], [botpress/sdk])

    Neither module is part of the sources at hand; the records below have
    the fields the specification lists in its data model, which are the
    fields the extractor reads and writes. *)

(** Modelled from the spec: the [BIO] tags of [typings].  The composite
    labels are [B-slot] and [I-slot], with a two-character prefix; [OUT]
    is a label of its own, for which the letter [o] is taken. *)
Inductive Tag := OUT | BEGINNING | INSIDE.

Module BIO.
Definition str (t : Tag) : string :=
  match t with
  | OUT => "o"
  | BEGINNING => "B"
  | INSIDE => "I"
  end.
Definition OUT : string := str OUT.
Definition BEGINNING : string := str BEGINNING.
Definition INSIDE : string := str INSIDE.
End BIO.

Module Token.
Record t := mk {
  value : string;
  start : Z;
  end_ : Z;
  tag : Tag;
  slot : option string;
  matchedEntities : list string
}.
End Token.
Abbreviation Token := Token.t.

Module Sequence.
Record t := mk {
  tokens : list Token;
  intent : string
}.
End Sequence.
Abbreviation Sequence := Sequence.t.

Module SlotDefinition.
Record t := mk {
  name : string;
  entity : string
}.
End SlotDefinition.
Abbreviation SlotDefinition := SlotDefinition.t.

Module IntentDefinition.
Record t := mk {
  name : string;
  slots : list SlotDefinition
}.
End IntentDefinition.
Abbreviation IntentDefinition := IntentDefinition.t.

Module Entity.
Record meta_t := mk_meta {
  start : Z;
  end_ : Z
}.
(** [value] is [JUndefined] when the body has no value. *)
Record body_t := mk_body {
  value : jsval
}.
Record t := mk {
  name : string;
  meta : meta_t;
  data : body_t
}.
End Entity.
Abbreviation Entity := Entity.t.

(** A slot as [_makeSlot] builds it, together with the [source] property
    that [extract] writes on it afterwards ([None]: never written). *)
Module Slot.
Record t := mk {
  name : string;
  value : jsval;
  entity : option Entity;
  source : option string
}.
End Slot.
Abbreviation Slot := Slot.t.

(** What a key of the slot collection holds: a slot, or an array of slots.
    An array is an object too and can receive a [source] property. *)
Inductive SlotEntry :=
| Single (s : Slot)
| Many (items : list Slot) (source : option string).

(** The collection is a plain object used as a dictionary.  Property
    lookup is own-property lookup, which is what [slotCollection[name]]
    does for every name that [Object.prototype] does not define. *)
Abbreviation SlotsCollection := (gmap string SlotEntry).

(* ---------------------------------------------------------------------- *)
(** ** Slot assembly: the pure part of [extract] *)

Definition slotDefNamed (slotName : string) (slotDef : SlotDefinition) : bool :=
  String.eqb (SlotDefinition.name slotDef) slotName.

(** The predicate of [entitites.find] in [_makeSlot]. *)
Definition covers (slotDef : SlotDefinition) (token : Token) (e : Entity) : bool :=
  String.eqb (SlotDefinition.entity slotDef) (Entity.name e)
  && (Entity.start (Entity.meta e) <=? Token.start token)
  && (Entity.end_ (Entity.meta e) >=? Token.end_ token).

(** [_.get(entity, 'data.value', dflt)]. *)
Definition get_data_value (entity : Entity) (dflt : jsval) : jsval :=
  match Entity.value (Entity.data entity) with
  | JUndefined => dflt
  | v => v
  end.

Definition _makeSlot (slotName : string) (token : Token)
    (slotDefinitions : list SlotDefinition) (entitites : list Entity) : Slot :=
  let slotDef := find (slotDefNamed slotName) slotDefinitions in
  let entity :=
    match slotDef with
    | Some d => find (covers d token) entitites
    | None => None
    end in
  let value :=
    match entity with
    | Some e => get_data_value e (JStr (Token.value token))
    | None => JStr (Token.value token)
    end in
  Slot.mk slotName value entity None.

(** The predicate of [filter] in [extract], on a pair of [_.zip]. *)
Definition keepPair (slots : list SlotDefinition)
    (p : option Token * option string) : bool :=
  match p with
  | (Some token, Some tag) =>
      if String.eqb tag "" || String.eqb tag BIO.OUT then false
      else
        let slotName := slice 2 tag in
        match find (slotDefNamed slotName) slots with
        | Some _ => true
        | None => false
        end
  | _ => false
  end.

(** The pairs the reducer receives: [_.zip(...).filter(...)], with the
    components unwrapped (a kept pair has both). *)
Definition keptPairs (tokens : list Token) (tags : list string)
    (slots : list SlotDefinition) : list (Token * string) :=
  omap (fun p => match p with
                 | (Some token, Some tag) => Some (token, tag)
                 | _ => None
                 end)
       (List.filter (keepPair slots) (lodash_zip tokens tags)).

(** [x.source += ` ${v}`] on a property that may still be undefined. *)
Definition appendSource (source : option string) (v : string) : option string :=
  Some (match source with
        | Some s => s
        | None => "undefined"
        end +:+ " " +:+ v).

(** One step of the [reduce] in [extract]. *)
Definition assembleStep (slots : list SlotDefinition) (entitites : list Entity)
    (slotCollection : SlotsCollection) (p : Token * string)
  : outcome SlotsCollection :=
  let '(token, tag) := p in
  let slotName := slice 2 tag in
  let slot := _makeSlot slotName token slots entitites in
  let existing := slotCollection !! slotName in
  match bool_decide (charAt 0 tag = Some BIO.INSIDE), existing with
  | true, Some (Single s) =>
      (* simply append the source if the tag is inside a slot *)
      Returned (<[slotName :=
                    Single (Slot.mk (Slot.name s) (Slot.value s) (Slot.entity s)
                              (appendSource (Slot.source s) (Token.value token)))]>
                  slotCollection)
  | true, Some (Many items src) =>
      Returned (<[slotName := Many items (appendSource src (Token.value token))]>
                  slotCollection)
  | _, _ =>
      match bool_decide (charAt 0 tag = Some BIO.BEGINNING), existing with
      | true, Some (Many _ _) =>
          (* slotName[slotName].push(slot): the receiver is a property of
             the string slotName, and none of them has a push method *)
          Thrown TypeError
      | true, Some (Single s) =>
          Returned (<[slotName := Many [s; slot] None]> slotCollection)
      | _, _ => Returned (<[slotName := Single slot]> slotCollection)
      end
  end.

Fixpoint assemble (slots : list SlotDefinition) (entitites : list Entity)
    (pairs : list (Token * string)) (slotCollection : SlotsCollection)
  : outcome SlotsCollection :=
  match pairs with
  | [] => Returned slotCollection
  | p :: rest =>
      match assembleStep slots entitites slotCollection p with
      | Returned c => assemble slots entitites rest c
      | Thrown e => Thrown e
      end
  end.

(* ---------------------------------------------------------------------- *)
(** ** Hyperparameters *)

Definition K_CLUSTERS : Z := 15.

Definition CRF_TRAINER_PARAMS : list (string * string) :=
  [ ("c1", "0.0001");
    ("c2", "0.01");
    ("max_iterations", "500");
    ("feature.possible_transitions", "1");
    ("feature.possible_states", "1") ].

Module FastTextTrainArgs.
(** [learningRate] is kept as the fraction [num / den]. *)
Record t := mk {
  method : string;
  minCount : Z;
  bucket : Z;
  dim : Z;
  learningRate : Z * Z;
  wordGram : Z;
  maxn : Z;
  minn : Z;
  epoch : Z
}.
End FastTextTrainArgs.

Definition FT_PARAMS : FastTextTrainArgs.t :=
  FastTextTrainArgs.mk "skipgram" 2 25000 15 (1, 2) 3 6 2 50.

Definition newline : string := String (ascii_of_nat 10) EmptyString.

(* ---------------------------------------------------------------------- *)
(** ** External capabilities

    Everything the extractor calls and does not define: the pre-processor,
    temporary files, the fastText wrapper, [ml-kmeans] and the CRF trainer
    and tagger of the toolkit.  A call returns or throws; the
    pre-processor, a pure function of the utterance, returns.  Creating a
    CRF trainer, setting its parameters and appending examples to it do
    not throw: what the trainer does happens in [trainer.train]. *)

Class Toolkit := {
  FastText : Type;
  WordVector : Type;
  KMeansModel : Type;
  CrfModel : Type;
  Tagger : Type;
  (** [./pre-processor] *)
  generatePredictionSequence : string -> string -> list Entity -> Sequence;
  (** [tmp.fileSync({ postfix }).name] *)
  tmp_fileSync : string -> outcome string;
  (** [fs.writeFileSync(fn, content, 'utf8')] *)
  fs_writeFileSync : string -> string -> outcome unit;
  (** [new FastText(modelFn)] *)
  ft_new : string -> FastText;
  (** [ft.train(trainFn, args)], with the content of the training file;
      called without [await], hence taken as synchronous *)
  ft_train : FastText -> string -> string -> FastTextTrainArgs.t -> outcome FastText;
  (** [ft.wordVectors(word)] *)
  ft_wordVectors : FastText -> string -> outcome WordVector;
  (** [kmeans(data, K)] *)
  kmeans : list WordVector -> Z -> outcome KMeansModel;
  (** [model.nearest([vector])[0]] *)
  km_nearest : KMeansModel -> WordVector -> outcome Z;
  (** a trainer with these parameters and appended examples, then
      [trainer.train(modelFn)]: the content written to the model file *)
  crf_train : list (string * string) -> list (list (list string) * list string)
              -> string -> outcome CrfModel;
  (** [toolkit.CRF.createTagger()] *)
  createTagger : Tagger;
  (** [tagger.open(modelFn)], with the content of the model file *)
  tagger_open : Tagger -> string -> option CrfModel -> outcome Tagger;
  (** [tagger.tag(inputVectors).result] *)
  tagger_tag : Tagger -> list (list string) -> outcome (list string)
}.

Section Extractor.
Context {TK : Toolkit}.

(** The calls that leave the extractor, in the order they are made. *)
Inductive Event :=
| EvTmpFile (postfix : string)
| EvWriteFile (fn content : string)
| EvFtTrain (trainFn : string)
| EvWordVectors (word : string)
| EvKmeans (data : list WordVector) (k : Z)
| EvNearest (vector : WordVector)
| EvCrfAppend (inputVectors : list (list string)) (labels : list string)
| EvCrfTrain (modelFn : string)
| EvTaggerOpen (modelFn : string)
| EvTaggerTag (inputVectors : list (list string))
| EvConsoleError (msg : string).

(** The fields of a [CRFExtractor]; [crfModelFile] is the content of the
    file named [_crfModelFn]. *)
Record CRFExtractor := mkExtractor {
  _isTrained : bool;
  _ftModelFn : string;
  _crfModelFn : string;
  _ft : option FastText;
  _tagger : option Tagger;
  _kmeansModel : option KMeansModel;
  crfModelFile : option CrfModel
}.

(** The state after the constructor. *)
Definition newExtractor : CRFExtractor :=
  mkExtractor false "" "" None None None None.

Definition set_isTrained (b : bool) (x : CRFExtractor) : CRFExtractor :=
  mkExtractor b (_ftModelFn x) (_crfModelFn x) (_ft x) (_tagger x)
    (_kmeansModel x) (crfModelFile x).
Definition set_ftModelFn (fn : string) (x : CRFExtractor) : CRFExtractor :=
  mkExtractor (_isTrained x) fn (_crfModelFn x) (_ft x) (_tagger x)
    (_kmeansModel x) (crfModelFile x).
Definition set_crfModelFn (fn : string) (x : CRFExtractor) : CRFExtractor :=
  mkExtractor (_isTrained x) (_ftModelFn x) fn (_ft x) (_tagger x)
    (_kmeansModel x) (crfModelFile x).
Definition set_ft (ft : FastText) (x : CRFExtractor) : CRFExtractor :=
  mkExtractor (_isTrained x) (_ftModelFn x) (_crfModelFn x) (Some ft) (_tagger x)
    (_kmeansModel x) (crfModelFile x).
Definition set_tagger (tg : Tagger) (x : CRFExtractor) : CRFExtractor :=
  mkExtractor (_isTrained x) (_ftModelFn x) (_crfModelFn x) (_ft x) (Some tg)
    (_kmeansModel x) (crfModelFile x).
Definition set_kmeansModel (km : KMeansModel) (x : CRFExtractor) : CRFExtractor :=
  mkExtractor (_isTrained x) (_ftModelFn x) (_crfModelFn x) (_ft x) (_tagger x)
    (Some km) (crfModelFile x).
Definition set_crfModelFile (m : CrfModel) (x : CRFExtractor) : CRFExtractor :=
  mkExtractor (_isTrained x) (_ftModelFn x) (_crfModelFn x) (_ft x) (_tagger x)
    (_kmeansModel x) (Some m).

(** *** The monad of methods: state of [this], calls made, result or
    exception *)

Record Run (A : Type) := mkRun {
  final : CRFExtractor;
  trace : list Event;
  result : outcome A
}.
Arguments mkRun {A} final trace result.
Arguments final {A} r.
Arguments trace {A} r.
Arguments result {A} r.

Definition M (A : Type) : Type := CRFExtractor -> Run A.

Definition run {A : Type} (m : M A) (this : CRFExtractor) : Run A := m this.

#[global] Instance M_ret : MRet M :=
  fun A a this => mkRun this [] (Returned a).

#[global] Instance M_bind : MBind M :=
  fun A B k m this =>
    let r := m this in
    match result r with
    | Returned a =>
        let r' := k a (final r) in
        mkRun (final r') (trace r ++ trace r') (result r')
    | Thrown e => mkRun (final r) (trace r) (Thrown e)
    end.

Definition throw {A : Type} (e : exn) : M A :=
  fun this => mkRun this [] (Thrown e).

Definition get : M CRFExtractor :=
  fun this => mkRun this [] (Returned this).

Definition modify (f : CRFExtractor -> CRFExtractor) : M unit :=
  fun this => mkRun (f this) [] (Returned tt).

(** A call to an external capability. *)
Definition call {A : Type} (ev : Event) (o : outcome A) : M A :=
  fun this => mkRun this [ev] o.

Definition log (ev : Event) : M unit :=
  fun this => mkRun this [ev] (Returned tt).

Definition lift {A : Type} (o : outcome A) : M A :=
  fun this => mkRun this [] o.

(** [try { m } catch (error) { h error }] *)
Definition try_catch {A : Type} (m : M A) (h : exn -> M A) : M A :=
  fun this =>
    let r := m this in
    match result r with
    | Returned a => r
    | Thrown e =>
        let r' := h e (final r) in
        mkRun (final r') (trace r ++ trace r') (result r')
    end.

(** [this.f.method(...)] on a field that may still be undefined. *)
Definition field {A : Type} (f : CRFExtractor -> option A) : M A :=
  this ← get;
  match f this with
  | Some a => mret a
  | None => throw TypeError
  end.

(** [m] leaves the observation [f] of the extractor as it found it. *)
Definition preserves {X A : Type} (f : CRFExtractor -> X) (m : M A) : Prop :=
  forall this, f (final (run m this)) = f this.

(** *** Feature vectorizer *)

Definition _getWordCluster (word : string) : M Z :=
  ft ← field _ft;
  vector ← call (EvWordVectors word) (ft_wordVectors ft word);
  km ← field _kmeansModel;
  call (EvNearest vector) (km_nearest km vector).

Definition isLower (v : string) : bool := String.eqb v (toLowerCase v).
Definition isUpper (v : string) : bool := String.eqb v (toUpperCase v).

(** The condition of the title feature. *)
Definition isTitle (v : string) : bool :=
  (1 <? String.length v)%nat
  && match charAt 0 v with
     | Some c => String.eqb c (toUpperCase c)
     | None => false
     end
  && match charAt 1 v with
     | Some c => String.eqb c (toLowerCase c)
     | None => false
     end.

Definition flag (b : bool) (feat : string) : list string :=
  if b then [feat] else [].

(** [token] is [None] when the caller indexed past the array: reading
    [token.value] then throws. *)
Definition _vectorizeToken (token : option Token) (intentName featPrefix : string)
    (includeCluster : bool) : M (list string) :=
  match token with
  | None => throw TypeError
  | Some token =>
      let v := Token.value token in
      let vector :=
        [featPrefix +:+ "intent=" +:+ intentName]
          ++ flag (isLower v) (featPrefix +:+ "low")
          ++ flag (isUpper v) (featPrefix +:+ "up")
          ++ flag (isTitle v) (featPrefix +:+ "title") in
      vector ←
        (if includeCluster then
           cluster ← _getWordCluster v;
           mret (vector ++ [featPrefix +:+ "cluster=" +:+ numToString cluster])
         else mret vector);
      let entititesFeatures :=
        map (fun ent => featPrefix +:+ "entity=" +:+ ent)
          (match Token.matchedEntities token with
           | [] => ["none"]
           | ents => ents
           end) in
      mret (vector ++ entititesFeatures)
  end.

(** The features [_vectorizeToken] emits for a token, given the cluster
    feature it obtained, if it asked for one. *)
Definition tokenFeatures (token : Token) (intentName featPrefix : string)
    (cluster : option Z) : list string :=
  let v := Token.value token in
  ([featPrefix +:+ "intent=" +:+ intentName]
     ++ flag (isLower v) (featPrefix +:+ "low")
     ++ flag (isUpper v) (featPrefix +:+ "up")
     ++ flag (isTitle v) (featPrefix +:+ "title")
     ++ match cluster with
        | Some c => [featPrefix +:+ "cluster=" +:+ numToString c]
        | None => []
        end)
    ++ map (fun ent => featPrefix +:+ "entity=" +:+ ent)
         (match Token.matchedEntities token with
          | [] => ["none"]
          | ents => ents
          end).

(** [idx === tokens.length - 1] *)
Definition lastIndex (tokens : list Token) (idx : nat) : bool :=
  Z.of_nat idx =? Z.of_nat (length tokens) - 1.

Definition _vectorize (tokens : list Token) (intentName : string) (idx : nat)
  : M (list string) :=
  prev ←
    (if (idx =? 0)%nat then mret ["w[0]bos"]
     else _vectorizeToken (tokens !! (idx - 1)%nat) intentName "w[-1]" true);
  current ← _vectorizeToken (tokens !! idx) intentName "w[0]" false;
  next ←
    (if lastIndex tokens idx then mret ["w[0]eos"]
     else _vectorizeToken (tokens !! (idx + 1)%nat) intentName "w[1]" true);
  mret (prev ++ current ++ next).

(** What [_vectorize] binds to [prev], [current] and [next] when started
    on [this]. *)

(** The segment of the window at the position before [idx]. *)
Definition prevSegment (this : CRFExtractor) (tokens : list Token)
    (intentName : string) (idx : nat) : outcome (list string) :=
  if (idx =? 0)%nat then Returned ["w[0]bos"]
  else result (run (_vectorizeToken (tokens !! (idx - 1)%nat) intentName "w[-1]" true) this).

Definition currentSegment (this : CRFExtractor) (tokens : list Token)
    (intentName : string) (idx : nat) : outcome (list string) :=
  result (run (_vectorizeToken (tokens !! idx) intentName "w[0]" false) this).

(** The segment at the position after [idx]. *)
Definition nextSegment (this : CRFExtractor) (tokens : list Token)
    (intentName : string) (idx : nat) : outcome (list string) :=
  if lastIndex tokens idx then Returned ["w[0]eos"]
  else result (run (_vectorizeToken (tokens !! (idx + 1)%nat) intentName "w[1]" true) this).

(** *** Tagging and extraction *)

Definition notTrained : exn :=
  Error "Model not trained, please call train() before".

Definition _tag (seq : Sequence) : M (list string) :=
  this ← get;
  if negb (_isTrained this) then throw notTrained
  else
    inputVectors ←
      mapM (fun i => _vectorize (Sequence.tokens seq) (Sequence.intent seq) i)
           (List.seq 0 (length (Sequence.tokens seq)));
    tagger ← field _tagger;
    call (EvTaggerTag inputVectors) (tagger_tag tagger inputVectors).

Definition extract (text : string) (intentDef : IntentDefinition)
    (entitites : list Entity) : M SlotsCollection :=
  let seq := generatePredictionSequence text (IntentDefinition.name intentDef) entitites in
  tags ← _tag seq;
  lift (assemble (IntentDefinition.slots intentDef) entitites
          (keptPairs (Sequence.tokens seq) tags (IntentDefinition.slots intentDef)) ∅).

(** *** Training *)

Definition _trainLanguageModel (samples : list Sequence) : M unit :=
  ftModelFn ← call (EvTmpFile ".bin") (tmp_fileSync ".bin");
  modify (set_ftModelFn ftModelFn);;
  ftTrainFn ← call (EvTmpFile ".txt") (tmp_fileSync ".txt");
  let ft := ft_new ftModelFn in
  modify (set_ft ft);;
  let trainContent :=
    fold_left
      (fun corpus seq =>
         let cannonicSentence :=
           join " "
             (map (fun s => match Token.tag s with
                            | OUT => Token.value s
                            | _ => default "" (Token.slot s)
                            end)
                  (Sequence.tokens seq)) in
         corpus +:+ cannonicSentence +:+ newline)
      samples "" in
  call (EvWriteFile ftTrainFn trainContent) (fs_writeFileSync ftTrainFn trainContent);;
  ft' ← call (EvFtTrain ftTrainFn) (ft_train ft ftTrainFn trainContent FT_PARAMS);
  modify (set_ft ft').

Definition _trainKmeans (sequences : list Sequence) : M unit :=
  let tokens := flat_map Sequence.tokens sequences in
  data ←
    mapM (fun t =>
            ft ← field _ft;
            call (EvWordVectors (Token.value t)) (ft_wordVectors ft (Token.value t)))
         tokens;
  try_catch
    (km ← call (EvKmeans data K_CLUSTERS) (kmeans data K_CLUSTERS);
     modify (set_kmeansModel km))
    (fun error =>
       log (EvConsoleError "error tra ining Kmeans");;
       throw error).

(** The label of a token in a CRF training example. *)
Definition compositeLabel (token : Token) : string :=
  let labelSlot :=
    match Token.slot token with
    | Some s => if String.eqb s "" then "" else "-" +:+ s
    | None => ""
    end in
  BIO.str (Token.tag token) +:+ labelSlot.

(** The body of the loop over the sequences in [_trainCrf]: the example
    appended for one sequence. *)
Definition crfExample (seq : Sequence) : M (list (list string) * list string) :=
  rows ←
    mapM (fun i =>
            featureVec ← _vectorize (Sequence.tokens seq) (Sequence.intent seq) i;
            mret (featureVec,
                  from_option compositeLabel "" (Sequence.tokens seq !! i)))
         (List.seq 0 (length (Sequence.tokens seq)));
  let inputVectors := map fst rows in
  let labels := map snd rows in
  log (EvCrfAppend inputVectors labels);;
  mret (inputVectors, labels).

Definition _trainCrf (sequences : list Sequence) : M unit :=
  crfModelFn ← call (EvTmpFile ".bin") (tmp_fileSync ".bin");
  modify (set_crfModelFn crfModelFn);;
  examples ← mapM crfExample sequences;
  model ← call (EvCrfTrain crfModelFn)
               (crf_train CRF_TRAINER_PARAMS examples crfModelFn);
  modify (set_crfModelFile model).

Definition train (trainingSet : list Sequence) : M unit :=
  modify (set_isTrained false);;
  _trainLanguageModel trainingSet;;
  _trainKmeans trainingSet;;
  _trainCrf trainingSet;;
  modify (set_tagger createTagger);;
  this ← get;
  tagger ← call (EvTaggerOpen (_crfModelFn this))
                (tagger_open createTagger (_crfModelFn this) (crfModelFile this));
  modify (set_tagger tagger);;
  modify (set_isTrained true).

(** *** States in which no [train] call has completed

    The constructor state, the states [train] passes through up to (not
    including) its last statement, the state a failed [train] leaves, and
    whatever tagging does to those. *)
Inductive Untrained : CRFExtractor -> Prop :=
| untrained_new : Untrained newExtractor
| untrained_begin this :
    Untrained this -> Untrained (set_isTrained false this)
| untrained_embedding this ts :
    Untrained this -> Untrained (final (run (_trainLanguageModel ts) this))
| untrained_clustering this ts :
    Untrained this -> Untrained (final (run (_trainKmeans ts) this))
| untrained_crf this ts :
    Untrained this -> Untrained (final (run (_trainCrf ts) this))
| untrained_tagger this tagger :
    Untrained this -> Untrained (set_tagger tagger this)
| untrained_failed this ts e :
    Untrained this ->
    result (run (train ts) this) = Thrown e ->
    Untrained (final (run (train ts) this))
| untrained_tag this seq :
    Untrained this -> Untrained (final (run (_tag seq) this))
| untrained_extract this text intentDef entitites :
    Untrained this ->
    Untrained (final (run (extract text intentDef entitites) this)).

(** Some stage of [train ts], started on [this], raises [e]: the
    embedding stage, or the clustering stage after it, or the CRF stage
    after both. *)
Definition stage_raised (this : CRFExtractor) (ts : list Sequence) (e : exn) : Prop :=
  let r1 := run (_trainLanguageModel ts) (set_isTrained false this) in
  let r2 := run (_trainKmeans ts) (final r1) in
  let r3 := run (_trainCrf ts) (final r2) in
  result r1 = Thrown e
  \/ (result r1 = Returned tt /\ result r2 = Thrown e)
  \/ (result r1 = Returned tt /\ result r2 = Returned tt /\ result r3 = Thrown e).

End Extractor.

Arguments mkRun {TK A} final trace result.
Arguments final {TK A} r.
Arguments trace {TK A} r.
Arguments result {TK A} r.

(* ---------------------------------------------------------------------- *)
(** ** A scripted toolkit

    Test doubles for the external capabilities: the pre-processor returns
    the scripted tokens, the tagger the scripted tags, a word vector is
    the word itself, and [kmeans] rejects, as [ml-kmeans] does, a [K]
    larger than the number of points it is given.  One capability can be
    scripted to throw. *)

Inductive Stage := Embedding | Clustering | CrfTraining | TaggerOpening.

Definition stage_eqb (a b : Stage) : bool :=
  match a, b with
  | Embedding, Embedding | Clustering, Clustering
  | CrfTraining, CrfTraining | TaggerOpening, TaggerOpening => true
  | _, _ => false
  end.

Record Script := mkScript {
  script_tokens : list Token;
  script_tags : list string;
  script_broken : option Stage
}.

Definition broken (sc : Script) (st : Stage) : bool :=
  match script_broken sc with
  | Some b => stage_eqb b st
  | None => false
  end.

Definition scripted (sc : Script) : Toolkit := {|
  FastText := bool;
  WordVector := string;
  KMeansModel := list string;
  CrfModel := list (list (list string) * list string);
  Tagger := bool;
  generatePredictionSequence := fun text intentName entitites =>
    Sequence.mk (script_tokens sc) intentName;
  tmp_fileSync := fun postfix => Returned ("/tmp/tmp-1" +:+ postfix);
  fs_writeFileSync := fun fn content => Returned tt;
  ft_new := fun modelFn => false;
  ft_train := fun ft trainFn content args =>
    if broken sc Embedding then Thrown (External "fastText") else Returned true;
  ft_wordVectors := fun ft word => Returned word;
  kmeans := fun data k =>
    if broken sc Clustering then Thrown (External "kmeans")
    else if (k <=? 0) || (Z.of_nat (length data) <? k) then
      Thrown (Error "K should be a positive integer smaller than the number of points")
    else Returned data;
  km_nearest := fun model vector => Returned 0;
  crf_train := fun params examples modelFn =>
    if broken sc CrfTraining then Thrown (External "crf") else Returned examples;
  createTagger := false;
  tagger_open := fun tagger modelFn content =>
    if broken sc TaggerOpening then Thrown (External "open") else Returned true;
  tagger_tag := fun tagger inputVectors => Returned (script_tags sc)
|}.

Definition mkToken (v : string) (s e : Z) (t : Tag) (sl : option string) : Token :=
  Token.mk v s e t sl [].

(** A training corpus of four utterances, sixteen tokens, nine distinct
    token values. *)
Definition corpus : list Sequence :=
  [ Sequence.mk
      [ mkToken "play" 0 4 OUT None;
        mkToken "Thriller" 5 13 BEGINNING (Some "song");
        mkToken "by" 14 16 OUT None;
        mkToken "Kanye" 17 22 BEGINNING (Some "artist");
        mkToken "West" 23 27 INSIDE (Some "artist") ] "play";
    Sequence.mk
      [ mkToken "play" 0 4 OUT None;
        mkToken "Bad" 5 8 BEGINNING (Some "song");
        mkToken "by" 9 11 OUT None;
        mkToken "Kanye" 12 17 BEGINNING (Some "artist");
        mkToken "West" 18 22 INSIDE (Some "artist") ] "play";
    Sequence.mk
      [ mkToken "play" 0 4 OUT None;
        mkToken "Thriller" 5 13 BEGINNING (Some "song");
        mkToken "and" 14 17 OUT None;
        mkToken "Bad" 18 21 BEGINNING (Some "song") ] "play";
    Sequence.mk
      [ mkToken "some" 0 4 OUT None;
        mkToken "music" 5 10 OUT None ] "play" ].

Definition playIntent : IntentDefinition :=
  IntentDefinition.mk "play"
    [ SlotDefinition.mk "artist" "any"; SlotDefinition.mk "song" "any" ].

(** An extractor trained on [corpus] with the scripted toolkit. *)
Definition trainedExtractor (sc : Script) : @CRFExtractor (scripted sc) :=
  final (run (train corpus) newExtractor).

Definition kanyeWest : Script :=
  mkScript [ mkToken "Kanye" 0 5 OUT None; mkToken "West" 6 10 OUT None ]
           [ "B-artist"; "I-artist" ] None.

Definition twoSongs : Script :=
  mkScript [ mkToken "Thriller" 0 8 OUT None; mkToken "and" 9 12 OUT None;
             mkToken "Bad" 13 16 OUT None ]
           [ "B-song"; "o"; "B-song" ] None.

Definition threeSongs : Script :=
  mkScript [ mkToken "Thriller" 0 8 OUT None; mkToken "Bad" 9 12 OUT None;
             mkToken "Beat" 13 17 OUT None ]
           [ "B-song"; "B-song"; "B-song" ] None.


(** Training again on two tokens: fewer points than clusters. *)
Definition tinyCorpus : list Sequence :=
  [ Sequence.mk [ mkToken "some" 0 4 OUT None; mkToken "music" 5 10 OUT None ] "play" ].

Definition tooFewPoints : exn :=
  Error "K should be a positive integer smaller than the number of points".

Definition personEntity (value : jsval) (s e : Z) : Entity :=
  Entity.mk "person" (Entity.mk_meta s e) (Entity.mk_body value).

(** *** Observations on slot collections *)

(** The key under which the reducer files a pair. *)
Definition pairName (p : Token * string) : string := slice 2 (snd p).

(** Every slot of the entry carries the name [n]. *)
Definition entryNamed (n : string) (e : SlotEntry) : Prop :=
  match e with
  | Single s => Slot.name s = n
  | Many items _ => Forall (fun s => Slot.name s = n) items
  end.

(** How many pairs a key has seen at least: none, one, two or more. *)
Definition rank (e : option SlotEntry) : nat :=
  match e with
  | None => 0
  | Some (Single _) => 1
  | Some (Many _ _) => 2
  end.

(** The pairs of [pairs] filed under [n]. *)
Definition occurrences (n : string) (pairs : list (Token * string)) : nat :=
  length (List.filter (fun p => String.eqb (pairName p) n) pairs).

(** The line [_trainLanguageModel] writes for one sequence, without its
    newline. *)
Definition cannonicSentence (seq : Sequence) : string :=
  join " "
    (map (fun s => match Token.tag s with
                   | OUT => Token.value s
                   | _ => default "" (Token.slot s)
                   end)
         (Sequence.tokens seq)).

(** *** Observations on call traces *)

(** Every call [m] makes satisfies [P]. *)
Definition emits `{TK : Toolkit} {A : Type} (P : Event -> Prop) (m : M A) : Prop :=
  forall this, Forall P (trace (run m this)).

Definition isClusteringCall `{TK : Toolkit} (ev : Event) : bool :=
  match ev with
  | EvKmeans _ _ => true
  | _ => false
  end.

Definition isCrfCall `{TK : Toolkit} (ev : Event) : bool :=
  match ev with
  | EvCrfAppend _ _ | EvCrfTrain _ => true
  | _ => false
  end.

Definition isTaggerCall `{TK : Toolkit} (ev : Event) : bool :=
  match ev with
  | EvTaggerOpen _ | EvTaggerTag _ => true
  | _ => false
  end.

(* ---------------------------------------------------------------------- *)
(** ** Facts about the monad and about what the methods leave alone *)

Section MethodFacts.
Context {TK : Toolkit}.

Lemma run_bind {A B : Type} (m : M A) (k : A -> M B) (this : CRFExtractor) :
  run (m ≫= k) this =
  match result (run m this) with
  | Returned a =>
      mkRun (final (run (k a) (final (run m this))))
            (trace (run m this) ++ trace (run (k a) (final (run m this))))
            (result (run (k a) (final (run m this))))
  | Thrown e => mkRun (final (run m this)) (trace (run m this)) (Thrown e)
  end.
Proof. reflexivity. Qed.

Section Preserves.
Context {X : Type} (f : CRFExtractor -> X).

Lemma preserves_ret {A : Type} (a : A) : preserves f (mret a).
Proof. intros this. reflexivity. Qed.

Lemma preserves_throw {A : Type} (e : exn) : preserves f (@throw _ A e).
Proof. intros this. reflexivity. Qed.

Lemma preserves_get : preserves f get.
Proof. intros this. reflexivity. Qed.

Lemma preserves_call {A : Type} ev (o : outcome A) : preserves f (call ev o).
Proof. intros this. reflexivity. Qed.

Lemma preserves_log ev : preserves f (log ev).
Proof. intros this. reflexivity. Qed.

Lemma preserves_lift {A : Type} (o : outcome A) : preserves f (lift o).
Proof. intros this. reflexivity. Qed.

Lemma preserves_modify (g : CRFExtractor -> CRFExtractor) :
  (forall this, f (g this) = f this) -> preserves f (modify g).
Proof. intros Hg this. apply Hg. Qed.

Lemma preserves_bind {A B : Type} (m : M A) (k : A -> M B) :
  preserves f m -> (forall a, preserves f (k a)) -> preserves f (m ≫= k).
Proof.
  intros Hm Hk this. rewrite run_bind.
  destruct (result (run m this)) as [a|e]; simpl.
  - rewrite Hk. apply Hm.
  - apply Hm.
Qed.

Lemma preserves_try_catch {A : Type} (m : M A) (h : exn -> M A) :
  preserves f m -> (forall e, preserves f (h e)) -> preserves f (try_catch m h).
Proof.
  intros Hm Hh this. unfold run, try_catch.
  destruct (result (m this)) as [a|e] eqn:E; simpl.
  - apply Hm.
  - fold (run (h e) (final (m this))). rewrite Hh. apply Hm.
Qed.

Lemma preserves_mapM {A B : Type} (g : A -> M B) (l : list A) :
  (forall a, preserves f (g a)) -> preserves f (mapM g l).
Proof.
  intros Hg. induction l as [|a l IH]; simpl.
  - apply preserves_ret.
  - apply preserves_bind; [apply Hg|]. intros b.
    apply preserves_bind; [apply IH|]. intros bs. apply preserves_ret.
Qed.

Lemma preserves_field {A : Type} (g : CRFExtractor -> option A) :
  preserves f (field g).
Proof. intros this. unfold field, run. simpl. destruct (g this); reflexivity. Qed.

Lemma preserves_if {A : Type} (b : bool) (m1 m2 : M A) :
  preserves f m1 -> preserves f m2 -> preserves f (if b then m1 else m2).
Proof. destruct b; auto. Qed.

End Preserves.

Create HintDb preserve.
#[local] Hint Resolve preserves_ret preserves_throw preserves_get
  preserves_call preserves_log preserves_lift preserves_field : preserve.

Ltac keeps :=
  repeat first
    [ progress intros
    | solve [auto with preserve]
    | apply preserves_modify; reflexivity
    | apply preserves_mapM
    | apply preserves_try_catch
    | apply preserves_if
    | apply preserves_bind ].

(** The vectorizer and the tagger only read the extractor. *)

Lemma getWordCluster_reads {X : Type} (f : CRFExtractor -> X) word :
  preserves f (_getWordCluster word).
Proof. unfold _getWordCluster. keeps. Qed.
#[local] Hint Resolve getWordCluster_reads : preserve.

Lemma vectorizeToken_reads {X : Type} (f : CRFExtractor -> X)
    token intentName featPrefix includeCluster :
  preserves f (_vectorizeToken token intentName featPrefix includeCluster).
Proof. unfold _vectorizeToken. destruct token; keeps. Qed.
#[local] Hint Resolve vectorizeToken_reads : preserve.

Lemma vectorize_reads {X : Type} (f : CRFExtractor -> X) tokens intentName idx :
  preserves f (_vectorize tokens intentName idx).
Proof. unfold _vectorize. keeps. Qed.
#[local] Hint Resolve vectorize_reads : preserve.

Lemma tag_reads {X : Type} (f : CRFExtractor -> X) seq : preserves f (_tag seq).
Proof. unfold _tag. keeps. Qed.
#[local] Hint Resolve tag_reads : preserve.

Lemma extract_reads {X : Type} (f : CRFExtractor -> X) text intentDef entitites :
  preserves f (extract text intentDef entitites).
Proof. unfold extract. keeps. Qed.

Lemma crfExample_reads {X : Type} (f : CRFExtractor -> X) seq :
  preserves f (crfExample seq).
Proof. unfold crfExample. keeps. Qed.
#[local] Hint Resolve crfExample_reads : preserve.

(** The training stages never write [_isTrained]. *)

Lemma trainLanguageModel_flag samples :
  preserves _isTrained (_trainLanguageModel samples).
Proof. unfold _trainLanguageModel. keeps. Qed.

Lemma trainKmeans_flag sequences : preserves _isTrained (_trainKmeans sequences).
Proof. unfold _trainKmeans. keeps. Qed.

Lemma trainCrf_flag sequences : preserves _isTrained (_trainCrf sequences).
Proof. unfold _trainCrf. keeps. Qed.

End MethodFacts.

(* ---------------------------------------------------------------------- *)
(** ** Tagging before training, and failed training *)

Section Training.
Context {TK : Toolkit}.

Lemma tag_without_flag (this : CRFExtractor) (seq : Sequence) :
  _isTrained this = false ->
  run (_tag seq) this = mkRun this [] (Thrown notTrained).
Proof.
  intros H. unfold _tag. rewrite run_bind. simpl. rewrite H. reflexivity.
Qed.

Lemma extract_without_flag (this : CRFExtractor) text intentDef entitites :
  _isTrained this = false ->
  run (extract text intentDef entitites) this = mkRun this [] (Thrown notTrained).
Proof.
  intros H. unfold extract. rewrite run_bind.
  rewrite (tag_without_flag _ _ H). reflexivity.
Qed.

(** The stages of [train], one after the other. *)
Lemma train_stages (this : CRFExtractor) (ts : list Sequence) :
  let r1 := run (_trainLanguageModel ts) (set_isTrained false this) in
  let r2 := run (_trainKmeans ts) (final r1) in
  let r3 := run (_trainCrf ts) (final r2) in
  let s4 := set_tagger createTagger (final r3) in
  let r := run (train ts) this in
  match result r1 with
  | Thrown e => result r = Thrown e /\ final r = final r1
  | Returned _ =>
      match result r2 with
      | Thrown e => result r = Thrown e /\ final r = final r2
      | Returned _ =>
          match result r3 with
          | Thrown e => result r = Thrown e /\ final r = final r3
          | Returned _ =>
              match tagger_open createTagger (_crfModelFn s4) (crfModelFile s4) with
              | Thrown e => result r = Thrown e /\ final r = s4
              | Returned tagger =>
                  result r = Returned tt
                  /\ final r = set_isTrained true (set_tagger tagger s4)
              end
          end
      end
  end.
Proof.
  cbv zeta. unfold train. rewrite run_bind. simpl.
  rewrite run_bind.
  destruct (result (run (_trainLanguageModel ts) (set_isTrained false this))); simpl; [|auto].
  rewrite run_bind.
  destruct (result (run (_trainKmeans ts) _)); simpl; [|auto].
  rewrite run_bind.
  destruct (result (run (_trainCrf ts) _)); simpl; [|auto].
  repeat (rewrite run_bind; simpl).
  destruct (tagger_open _ _ _); simpl; auto.
Qed.

Lemma train_thrown_flag (this : CRFExtractor) (ts : list Sequence) (e : exn) :
  result (run (train ts) this) = Thrown e ->
  _isTrained (final (run (train ts) this)) = false.
Proof.
  intros H. pose proof (train_stages this ts) as S. cbv zeta in S.
  pose proof (trainLanguageModel_flag ts (set_isTrained false this)) as F1.
  pose proof (trainKmeans_flag ts
                (final (run (_trainLanguageModel ts) (set_isTrained false this)))) as F2.
  pose proof (trainCrf_flag ts
                (final (run (_trainKmeans ts)
                   (final (run (_trainLanguageModel ts) (set_isTrained false this)))))) as F3.
  simpl in F1. rewrite F1 in F2. rewrite F2 in F3.
  destruct (result (run (_trainLanguageModel ts) _)).
  2:{ destruct S as [_ ->]. exact F1. }
  destruct (result (run (_trainKmeans ts) _)).
  2:{ destruct S as [_ ->]. exact F2. }
  destruct (result (run (_trainCrf ts) _)).
  2:{ destruct S as [_ ->]. exact F3. }
  destruct (tagger_open _ _ _).
  - destruct S as [S _]. congruence.
  - destruct S as [_ ->]. exact F3.
Qed.

Lemma untrained_flag (this : CRFExtractor) :
  Untrained this -> _isTrained this = false.
Proof.
  induction 1 as [ | this _ _ | this ts _ IH | this ts _ IH | this ts _ IH
                 | this tagger _ IH | this ts e _ _ H | this seq _ IH
                 | this text intentDef entitites _ IH ].
  - reflexivity.
  - reflexivity.
  - rewrite trainLanguageModel_flag. exact IH.
  - rewrite trainKmeans_flag. exact IH.
  - rewrite trainCrf_flag. exact IH.
  - exact IH.
  - exact (train_thrown_flag _ _ _ H).
  - rewrite (tag_reads _isTrained). exact IH.
  - rewrite (extract_reads _isTrained). exact IH.
Qed.

Lemma stage_raised_thrown (this : CRFExtractor) (ts : list Sequence) (e : exn) :
  stage_raised this ts e -> result (run (train ts) this) = Thrown e.
Proof.
  intros H. pose proof (train_stages this ts) as S.
  unfold stage_raised in H. cbv zeta in S, H.
  destruct H as [H | [[H1 H] | [H1 [H2 H]]]].
  - rewrite H in S. apply S.
  - rewrite H1, H in S. apply S.
  - rewrite H1, H2, H in S. apply S.
Qed.

End Training.

(** C3.  In every state in which no [train] call has completed, [_tag]
    throws the not-trained error for every sequence, and so does [extract]
    for every utterance; the run makes no call to the tagger or to any
    other capability (its trace is empty) and leaves the extractor as it
    was.  The result is a function of the state: there is nothing else it
    could depend on. *)
Theorem tag_before_train_throws `{TK : Toolkit} (this : CRFExtractor) :
  Untrained this ->
  (forall seq, run (_tag seq) this = mkRun this [] (Thrown notTrained))
  /\ (forall text intentDef entitites,
        run (extract text intentDef entitites) this
        = mkRun this [] (Thrown notTrained))
  /\ notTrained = Error "Model not trained, please call train() before".
Proof.
  intros U. apply untrained_flag in U. split; [|split].
  - intros seq. apply tag_without_flag, U.
  - intros. apply extract_without_flag, U.
  - reflexivity.
Qed.

Lemma tag_before_train_throws_witness :
  (forall seq, run (_tag seq) (@newExtractor (scripted kanyeWest))
               = mkRun newExtractor [] (Thrown notTrained))
  /\ (forall text intentDef entitites,
        run (extract text intentDef entitites) (@newExtractor (scripted kanyeWest))
        = mkRun newExtractor [] (Thrown notTrained))
  /\ notTrained = Error "Model not trained, please call train() before".
Proof.
  apply (@tag_before_train_throws (scripted kanyeWest) newExtractor).
  apply untrained_new.
Defined.

(** C4.  When the embedding stage, the clustering stage or the CRF
    training stage of [train] raises [e], [train] raises that same [e],
    [_isTrained] is false in the state it leaves, and every tagging attempt
    on that state throws the not-trained error without calling anything. *)
Theorem failed_training_leaves_untrained `{TK : Toolkit}
    (this : CRFExtractor) (ts : list Sequence) (e : exn) :
  stage_raised this ts e ->
  let this' := final (run (train ts) this) in
  result (run (train ts) this) = Thrown e
  /\ _isTrained this' = false
  /\ (forall seq, run (_tag seq) this' = mkRun this' [] (Thrown notTrained))
  /\ (forall text intentDef entitites,
        run (extract text intentDef entitites) this'
        = mkRun this' [] (Thrown notTrained)).
Proof.
  intros H this'. apply stage_raised_thrown in H.
  pose proof (train_thrown_flag _ _ _ H) as F. fold this' in F.
  split; [exact H|]. split; [exact F|]. split.
  - intros seq. apply tag_without_flag, F.
  - intros. apply extract_without_flag, F.
Qed.

Lemma failed_training_leaves_untrained_witness :
  _isTrained (trainedExtractor kanyeWest) = true
  /\ let this' := final (run (train tinyCorpus) (trainedExtractor kanyeWest)) in
     result (run (train tinyCorpus) (trainedExtractor kanyeWest)) = Thrown tooFewPoints
     /\ _isTrained this' = false
     /\ (forall seq, run (_tag seq) this' = mkRun this' [] (Thrown notTrained))
     /\ (forall text intentDef entitites,
           run (extract text intentDef entitites) this'
           = mkRun this' [] (Thrown notTrained)).
Proof.
  split; [vm_compute; reflexivity|].
  apply (@failed_training_leaves_untrained (scripted kanyeWest)).
  right. left. split; vm_compute; reflexivity.
Defined.

(* ---------------------------------------------------------------------- *)
(** ** Pairing tokens with tags *)

Lemma lodash_zip_length {A B : Type} (xs : list A) (ys : list B) :
  length (lodash_zip xs ys) = Nat.max (length xs) (length ys).
Proof.
  revert ys. induction xs as [|x xs IH]; intros ys.
  - simpl. apply length_map.
  - destruct ys as [|y ys].
    + simpl. rewrite length_map. reflexivity.
    + simpl. rewrite IH. reflexivity.
Qed.

Lemma lodash_zip_complete {A B : Type} (xs : list A) (ys : list B) :
  List.filter bothDefined (lodash_zip xs ys)
  = map (fun p => (Some (fst p), Some (snd p))) (combine xs ys).
Proof.
  revert ys. induction xs as [|x xs IH]; intros ys.
  - simpl. induction ys as [|y ys IHy]; simpl; auto.
  - destruct ys as [|y ys].
    + simpl. clear IH. induction xs as [|x' xs IHx]; simpl; auto.
    + simpl. rewrite IH. reflexivity.
Qed.

Lemma keptPairs_combine (tokens : list Token) (tags : list string)
    (slots : list SlotDefinition) :
  keptPairs tokens tags slots
  = List.filter (fun p => keepPair slots (Some (fst p), Some (snd p)))
      (combine tokens tags).
Proof.
  unfold keptPairs. revert tags.
  induction tokens as [|t tokens IH]; intros tags.
  - simpl. induction tags as [|g tags IHg]; simpl; auto.
  - destruct tags as [|g tags].
    + simpl. clear IH. induction tokens as [|t' tokens IHt]; simpl; auto.
    + cbn [lodash_zip combine List.filter fst snd].
      destruct (keepPair slots (Some t, Some g)); simpl; rewrite IH; reflexivity.
Qed.

Lemma combine_lookup {A B : Type} (xs : list A) (ys : list B) (a : A) (b : B) :
  In (a, b) (combine xs ys) ->
  exists i, (i < Nat.min (length xs) (length ys))%nat
            /\ xs !! i = Some a /\ ys !! i = Some b.
Proof.
  revert ys. induction xs as [|x xs IH]; intros ys H.
  - destruct H.
  - destruct ys as [|y ys]; [destruct H|].
    destruct H as [H | H].
    + inversion H; subst. exists 0%nat. simpl. split; [lia|auto].
    + destruct (IH _ H) as (i & Hi & Hx & Hy).
      exists (S i). simpl. split; [lia|auto].
Qed.

(** C5.  [_.zip] pads the shorter of the two arrays, so it yields
    [max N M] pairs, of which exactly [min N M] have both components; the
    reducer of [extract] receives the pairs of the truncating zip that pass
    the filter, so every pair it receives sits at an index below
    [min N M] of both arrays and has a tag other than [OUT]. *)
Theorem assembler_pairs_truncate (tokens : list Token) (tags : list string)
    (slots : list SlotDefinition) :
  length (lodash_zip tokens tags) = Nat.max (length tokens) (length tags)
  /\ length (List.filter bothDefined (lodash_zip tokens tags))
     = Nat.min (length tokens) (length tags)
  /\ (forall p, In p (lodash_zip tokens tags) ->
                bothDefined p = false -> keepPair slots p = false)
  /\ (forall token, keepPair slots (Some token, Some BIO.OUT) = false)
  /\ keptPairs tokens tags slots
     = List.filter (fun p => keepPair slots (Some (fst p), Some (snd p)))
         (combine tokens tags)
  /\ (forall token tag,
        In (token, tag) (keptPairs tokens tags slots) ->
        tag <> BIO.OUT
        /\ exists i, (i < Nat.min (length tokens) (length tags))%nat
                     /\ tokens !! i = Some token /\ tags !! i = Some tag).
Proof.
  split; [apply lodash_zip_length|].
  split; [rewrite lodash_zip_complete, length_map; apply length_combine|].
  split; [intros [[t|] [g|]] _ H; simpl in *; congruence|].
  split; [reflexivity|].
  split; [apply keptPairs_combine|].
  intros token tag H. rewrite keptPairs_combine in H.
  apply filter_In in H. destruct H as [H K]. simpl in K.
  split.
  - intros ->. discriminate K.
  - apply combine_lookup, H.
Qed.

(* ---------------------------------------------------------------------- *)
(** ** The value of a slot *)

Lemma find_first {A : Type} (P : A -> bool) (before after : list A) (a : A) :
  P a = true -> (forall x, In x before -> P x = false) ->
  find P (before ++ a :: after) = Some a.
Proof.
  intros Ha Hb. induction before as [|b before IH]; simpl.
  - rewrite Ha. reflexivity.
  - rewrite (Hb b (or_introl eq_refl)). apply IH.
    intros x Hx. apply Hb. right. exact Hx.
Qed.

Lemma find_nothing {A : Type} (P : A -> bool) (l : list A) :
  (forall x, In x l -> P x = false) -> find P l = None.
Proof.
  intros H. induction l as [|b l IH]; simpl; [reflexivity|].
  rewrite (H b (or_introl eq_refl)). apply IH.
  intros x Hx. apply H. right. exact Hx.
Qed.

Lemma covers_spec (slotDef : SlotDefinition) (token : Token) (e : Entity) :
  covers slotDef token e = true <->
  SlotDefinition.entity slotDef = Entity.name e
  /\ Entity.start (Entity.meta e) <= Token.start token
  /\ Entity.end_ (Entity.meta e) >= Token.end_ token.
Proof.
  unfold covers. rewrite !andb_true_iff, String.eqb_eq, Z.leb_le, Z.geb_le.
  intuition lia.
Qed.

(** C10.  For a slot name declared by [slotDef] (the first definition of
    that name): the slot carries the first entity of the supplied list
    that has the slot's entity type and covers the token's span, and its
    value is that entity's [data.value], or the token's text when
    [data.value] is undefined; when no entity covers the token, the slot
    has no [entity] field and its value is the token's text.  An entity is
    attached only if it is in the list and covers the token. *)
Theorem makeSlot_first_covering_entity (slotName : string) (token : Token)
    (slotDefinitions : list SlotDefinition) (entitites : list Entity)
    (slotDef : SlotDefinition) :
  find (slotDefNamed slotName) slotDefinitions = Some slotDef ->
  let slot := _makeSlot slotName token slotDefinitions entitites in
  Slot.name slot = slotName
  /\ (forall before e after,
        entitites = before ++ e :: after ->
        covers slotDef token e = true ->
        (forall x, In x before -> covers slotDef token x = false) ->
        Slot.entity slot = Some e
        /\ Slot.value slot
           = match Entity.value (Entity.data e) with
             | JUndefined => JStr (Token.value token)
             | v => v
             end)
  /\ ((forall x, In x entitites -> covers slotDef token x = false) ->
      Slot.entity slot = None /\ Slot.value slot = JStr (Token.value token))
  /\ (forall e, Slot.entity slot = Some e ->
                In e entitites /\ covers slotDef token e = true)
  /\ (forall e, covers slotDef token e = true <->
                SlotDefinition.entity slotDef = Entity.name e
                /\ Entity.start (Entity.meta e) <= Token.start token
                /\ Entity.end_ (Entity.meta e) >= Token.end_ token).
Proof.
  intros Hd slot. subst slot. unfold _makeSlot. rewrite Hd. simpl.
  split; [reflexivity|]. split; [|split; [|split]].
  - intros before e after -> He Hb.
    rewrite (find_first _ _ _ _ He Hb). split; reflexivity.
  - intros Hn. rewrite (find_nothing _ _ Hn). split; reflexivity.
  - intros e He. apply find_some in He. exact He.
  - intros e. apply covers_spec.
Qed.

Lemma makeSlot_first_covering_entity_witness :
  let token := mkToken "Kanye" 5 10 OUT None in
  let entitites :=
    [ personEntity (JStr "Nobody") 20 30;
      personEntity (JStr "Kanye West") 5 15;
      personEntity (JStr "Kanye Omari West") 0 30 ] in
  let slot := _makeSlot "artist" token [SlotDefinition.mk "artist" "person"] entitites in
  Slot.entity slot = Some (personEntity (JStr "Kanye West") 5 15)
  /\ Slot.value slot = JStr "Kanye West".
Proof.
  intros token entitites slot.
  pose proof (makeSlot_first_covering_entity "artist" token
                [SlotDefinition.mk "artist" "person"] entitites
                (SlotDefinition.mk "artist" "person") eq_refl) as H.
  destruct H as (_ & H & _).
  apply (H [personEntity (JStr "Nobody") 20 30]
           (personEntity (JStr "Kanye West") 5 15)
           [personEntity (JStr "Kanye Omari West") 0 30]).
  - reflexivity.
  - reflexivity.
  - intros x [<- | []]. reflexivity.
Defined.

(* ---------------------------------------------------------------------- *)
(** ** Features of one window position *)

Lemma append_cancel (p a b : string) : p +:+ a = p +:+ b -> a = b.
Proof.
  induction p as [|c p IH]; simpl; intros H; [exact H|].
  injection H as H. apply IH, H.
Qed.

Lemma isTitle_spec (v : string) :
  isTitle v = true <->
  exists c0 c1 rest,
    v = String c0 (String c1 rest) /\ upperAscii c0 = c0 /\ lowerAscii c1 = c1.
Proof.
  unfold isTitle. split.
  - intros H. destruct v as [|c0 [|c1 rest]]; try discriminate H.
    unfold charAt in H. simpl in H.
    destruct (Ascii.eqb_spec c0 (upperAscii c0)) as [H0|]; [|discriminate H].
    destruct (Ascii.eqb_spec c1 (lowerAscii c1)) as [H1|]; [|discriminate H].
    exists c0, c1, rest. split; [reflexivity|]. split; congruence.
  - intros (c0 & c1 & rest & -> & H0 & H1).
    unfold charAt. simpl. rewrite H0, H1, !Ascii.eqb_refl. reflexivity.
Qed.

Ltac other_feature H :=
  simpl in H;
  repeat match type of H with
         | _ \/ _ => destruct H as [H | H]
         | False => destruct H
         | _ +:+ _ = _ +:+ _ => apply append_cancel in H; discriminate H
         end.

Lemma title_in_tokenFeatures token intentName featPrefix cluster :
  In (featPrefix +:+ "title") (tokenFeatures token intentName featPrefix cluster)
  <-> isTitle (Token.value token) = true.
Proof.
  unfold tokenFeatures, flag. rewrite !in_app_iff, in_map_iff. split.
  - intros [[H | [H | [H | [H | H]]]] | (ent & H & _)].
    + other_feature H.
    + destruct (isLower _); other_feature H.
    + destruct (isUpper _); other_feature H.
    + destruct (isTitle _); [reflexivity | destruct H].
    + destruct cluster; other_feature H.
    + other_feature H.
  - intros ->. left. do 3 right. left. left. reflexivity.
Qed.

Section TokenFeatures.
Context {TK : Toolkit}.

Lemma vectorizeToken_center (this : CRFExtractor) token intentName featPrefix :
  run (_vectorizeToken (Some token) intentName featPrefix false) this
  = mkRun this [] (Returned (tokenFeatures token intentName featPrefix None)).
Proof.
  unfold _vectorizeToken, tokenFeatures. rewrite run_bind. simpl.
  rewrite !app_nil_r, <- !app_assoc. reflexivity.
Qed.

Lemma vectorizeToken_neighbour (this : CRFExtractor) token intentName featPrefix :
  result (run (_vectorizeToken (Some token) intentName featPrefix true) this)
  = match result (run (_getWordCluster (Token.value token)) this) with
    | Returned c => Returned (tokenFeatures token intentName featPrefix (Some c))
    | Thrown e => Thrown e
    end.
Proof.
  unfold _vectorizeToken, tokenFeatures. rewrite !run_bind.
  destruct (result (run (_getWordCluster (Token.value token)) this)); simpl.
  - rewrite <- !app_assoc. reflexivity.
  - reflexivity.
Qed.

Lemma vectorizeToken_features (this : CRFExtractor) token intentName featPrefix
    includeCluster v :
  result (run (_vectorizeToken (Some token) intentName featPrefix includeCluster) this)
  = Returned v ->
  exists cluster, v = tokenFeatures token intentName featPrefix cluster.
Proof.
  destruct includeCluster.
  - rewrite vectorizeToken_neighbour.
    destruct (result (run (_getWordCluster _) this)) as [c|e]; intros H.
    + injection H as <-. exists (Some c). reflexivity.
    + discriminate H.
  - rewrite vectorizeToken_center. simpl. intros H. injection H as <-.
    exists None. reflexivity.
Qed.

End TokenFeatures.




(* ---------------------------------------------------------------------- *)
(** ** The three-position window *)

Lemma tokenFeatures_prefixed token intentName featPrefix cluster f :
  In f (tokenFeatures token intentName featPrefix cluster) ->
  exists rest, f = featPrefix +:+ rest.
Proof.
  unfold tokenFeatures, flag. rewrite !in_app_iff, in_map_iff.
  intros [[H | [H | [H | [H | H]]]] | (ent & H & _)].
  - destruct H as [<- | []]. eauto.
  - destruct (isLower _); simpl in H; [destruct H as [<- | []]; eauto | destruct H].
  - destruct (isUpper _); simpl in H; [destruct H as [<- | []]; eauto | destruct H].
  - destruct (isTitle _); simpl in H; [destruct H as [<- | []]; eauto | destruct H].
  - destruct cluster; simpl in H; [destruct H as [<- | []]; eauto | destruct H].
  - subst f. eauto.
Qed.

Lemma lastIndex_spec tokens idx :
  lastIndex tokens idx = true <-> S idx = length tokens.
Proof. unfold lastIndex. rewrite Z.eqb_eq. lia. Qed.

Section Window.
Context {TK : Toolkit}.

Lemma result_bind_reads {A B : Type} (m : M A) (k : A -> M B) (this : CRFExtractor) :
  preserves id m ->
  result (run (m ≫= k) this)
  = match result (run m this) with
    | Returned a => result (run (k a) this)
    | Thrown e => Thrown e
    end.
Proof.
  intros H. rewrite run_bind. pose proof (H this) as E. unfold id in E.
  destruct (result (run m this)); simpl; [rewrite E|]; reflexivity.
Qed.

Lemma vectorize_segments (this : CRFExtractor) tokens intentName idx :
  result (run (_vectorize tokens intentName idx) this)
  = match prevSegment this tokens intentName idx with
    | Thrown e => Thrown e
    | Returned prev =>
        match currentSegment this tokens intentName idx with
        | Thrown e => Thrown e
        | Returned current =>
            match nextSegment this tokens intentName idx with
            | Thrown e => Thrown e
            | Returned next => Returned (prev ++ current ++ next)
            end
        end
    end.
Proof.
  unfold _vectorize, prevSegment, currentSegment, nextSegment.
  rewrite result_bind_reads
    by (apply preserves_if; [apply preserves_ret | apply vectorizeToken_reads]).
  destruct (idx =? 0)%nat.
  - simpl. rewrite result_bind_reads by apply vectorizeToken_reads.
    destruct (result (run (_vectorizeToken (tokens !! idx) _ _ _) this)); [|reflexivity].
    rewrite result_bind_reads
      by (apply preserves_if; [apply preserves_ret | apply vectorizeToken_reads]).
    destruct (lastIndex tokens idx); simpl; [reflexivity|].
    destruct (result (run (_vectorizeToken _ _ _ _) this)); reflexivity.
  - destruct (result (run (_vectorizeToken (tokens !! (idx - 1)%nat) _ _ _) this));
      [|reflexivity].
    rewrite result_bind_reads by apply vectorizeToken_reads.
    destruct (result (run (_vectorizeToken (tokens !! idx) _ _ _) this)); [|reflexivity].
    rewrite result_bind_reads
      by (apply preserves_if; [apply preserves_ret | apply vectorizeToken_reads]).
    destruct (lastIndex tokens idx); simpl; [reflexivity|].
    destruct (result (run (_vectorizeToken _ _ _ _) this)); reflexivity.
Qed.

Lemma segment_prefixed (this : CRFExtractor) token intentName featPrefix
    includeCluster v f :
  result (run (_vectorizeToken token intentName featPrefix includeCluster) this)
  = Returned v ->
  In f v -> exists rest, f = featPrefix +:+ rest.
Proof.
  destruct token as [token|]; [|discriminate].
  intros H Hf. apply vectorizeToken_features in H. destruct H as [cluster ->].
  eapply tokenFeatures_prefixed, Hf.
Qed.

End Window.

(** C8.  The vector of position [idx] is the concatenation of the
    segments of [idx-1], [idx] and [idx+1], in that order, and it exists
    exactly when the three segments do.  For the first token the previous
    segment is the single marker [w[0]bos]: the vector starts with it and
    holds no feature of the [w[-1]] window.  For the last token the next
    segment is the single marker [w[0]eos]: the vector ends with it and
    holds no feature of the [w[1]] window. *)
Theorem vectorize_window_edges `{TK : Toolkit} (this : CRFExtractor)
    (tokens : list Token) (intentName : string) (idx : nat) :
  result (run (_vectorize tokens intentName idx) this)
  = match prevSegment this tokens intentName idx with
    | Thrown e => Thrown e
    | Returned prev =>
        match currentSegment this tokens intentName idx with
        | Thrown e => Thrown e
        | Returned current =>
            match nextSegment this tokens intentName idx with
            | Thrown e => Thrown e
            | Returned next => Returned (prev ++ current ++ next)
            end
        end
    end
  /\ (idx = 0%nat -> prevSegment this tokens intentName idx = Returned ["w[0]bos"])
  /\ (S idx = length tokens ->
      nextSegment this tokens intentName idx = Returned ["w[0]eos"])
  /\ (forall v, result (run (_vectorize tokens intentName idx) this) = Returned v ->
      (idx = 0%nat ->
       exists rest, v = "w[0]bos" :: rest
                    /\ forall f, In f rest -> String.prefix "w[-1]" f = false)
      /\ (S idx = length tokens ->
          exists rest, v = rest ++ ["w[0]eos"]
                       /\ forall f, In f rest -> String.prefix "w[1]" f = false)).
Proof.
  split; [apply vectorize_segments|].
  split; [intros ->; reflexivity|].
  split; [intros H; unfold nextSegment; apply lastIndex_spec in H; rewrite H;
          reflexivity|].
  intros v Hv. rewrite vectorize_segments in Hv.
  destruct (prevSegment this tokens intentName idx) as [prev|] eqn:Ep;
    [|discriminate Hv].
  destruct (currentSegment this tokens intentName idx) as [current|] eqn:Ec;
    [|discriminate Hv].
  destruct (nextSegment this tokens intentName idx) as [next|] eqn:En;
    [|discriminate Hv].
  injection Hv as <-.
  assert (Hcur : forall f, In f current -> exists rest, f = "w[0]" +:+ rest).
  { intros f. apply (segment_prefixed _ _ _ _ _ _ _ Ec). }
  split.
  - intros ->. unfold prevSegment in Ep. simpl in Ep. injection Ep as <-.
    exists (current ++ next). split; [reflexivity|].
    intros f Hf. apply in_app_iff in Hf. destruct Hf as [Hf | Hf].
    + destruct (Hcur f Hf) as [rest ->]. reflexivity.
    + unfold nextSegment in En. destruct (lastIndex tokens 0).
      * injection En as <-. destruct Hf as [<- | []]. reflexivity.
      * destruct (segment_prefixed _ _ _ _ _ _ _ En Hf) as [rest ->]. reflexivity.
  - intros Hlast. unfold nextSegment in En.
    apply lastIndex_spec in Hlast. rewrite Hlast in En. injection En as <-.
    exists (prev ++ current). split; [rewrite app_assoc; reflexivity|].
    intros f Hf. apply in_app_iff in Hf. destruct Hf as [Hf | Hf].
    + unfold prevSegment in Ep. destruct (idx =? 0)%nat.
      * injection Ep as <-. destruct Hf as [<- | []]. reflexivity.
      * destruct (segment_prefixed _ _ _ _ _ _ _ Ep Hf) as [rest ->]. reflexivity.
    + destruct (Hcur f Hf) as [rest ->]. reflexivity.
Qed.

Lemma vectorize_window_edges_witness :
  result (run (_vectorize (script_tokens kanyeWest) "play" 0)
            (trainedExtractor kanyeWest))
  = Returned [ "w[0]bos";
               "w[0]intent=play"; "w[0]title"; "w[0]entity=none";
               "w[1]intent=play"; "w[1]title"; "w[1]cluster=0"; "w[1]entity=none" ]
  /\ result (run (_vectorize (script_tokens kanyeWest) "play" 1)
               (trainedExtractor kanyeWest))
     = Returned [ "w[-1]intent=play"; "w[-1]title"; "w[-1]cluster=0";
                  "w[-1]entity=none";
                  "w[0]intent=play"; "w[0]title"; "w[0]entity=none";
                  "w[0]eos" ].
Proof.
  split.
  - destruct (@vectorize_window_edges (scripted kanyeWest)
                (trainedExtractor kanyeWest) (script_tokens kanyeWest) "play" 0)
      as [H _].
    rewrite H. vm_compute. reflexivity.
  - destruct (@vectorize_window_edges (scripted kanyeWest)
                (trainedExtractor kanyeWest) (script_tokens kanyeWest) "play" 1)
      as [H _].
    rewrite H. vm_compute. reflexivity.
Defined.

(* ---------------------------------------------------------------------- *)
(** ** Labels of the CRF training examples *)

Lemma append_empty_r (s : string) : s +:+ "" = s.
Proof.
  induction s as [|c s IH]; [reflexivity|].
  change (String c (s +:+ "") = String c s). rewrite IH. reflexivity.
Qed.

Lemma lookup_all {A B : Type} (h : A -> B) (d : B) (l : list A) :
  map (fun i => from_option h d (l !! i)) (List.seq 0 (length l)) = map h l.
Proof.
  induction l as [|a l IH]; [reflexivity|].
  cbn [length List.seq map]. rewrite <- seq_shift, map_map. simpl.
  f_equal. exact IH.
Qed.

Section Labels.
Context {TK : Toolkit}.

Lemma mapM_paired {A V L : Type} (g : A -> M V) (h : A -> L) (l : list A)
    (this : CRFExtractor) :
  (forall a, preserves id (g a)) ->
  match result (run (mapM g l) this) with
  | Returned vs =>
      exists rows,
        result (run (mapM (fun a => v ← g a; mret (v, h a)) l) this) = Returned rows
        /\ map fst rows = vs /\ map snd rows = map h l
  | Thrown e =>
      result (run (mapM (fun a => v ← g a; mret (v, h a)) l) this) = Thrown e
  end.
Proof.
  intros Hg.
  assert (Hp : forall a, preserves id (v ← g a; mret (v, h a))).
  { intros a. apply preserves_bind; [apply Hg|]. intros v. apply preserves_ret. }
  induction l as [|a l IH].
  - simpl. exists []. auto.
  - cbn [mapM]. rewrite (result_bind_reads (g a)) by apply Hg.
    rewrite (result_bind_reads (v ← g a; mret (v, h a))) by apply Hp.
    rewrite (result_bind_reads (g a)) by apply Hg.
    destruct (result (run (g a) this)) as [v|e]; [|reflexivity].
    simpl.
    rewrite (result_bind_reads (mapM g l)) by (apply preserves_mapM, Hg).
    rewrite (result_bind_reads (mapM _ l)) by (apply preserves_mapM, Hp).
    destruct (result (run (mapM g l) this)) as [vs|e].
    + destruct IH as (rows & -> & Hf & Hs). simpl.
      exists ((v, h a) :: rows). simpl. rewrite Hf, Hs. auto.
    + rewrite IH. reflexivity.
Qed.

Lemma crfExample_result (this : CRFExtractor) (seq : Sequence) :
  result (run (crfExample seq) this)
  = match result (run (mapM (fun i => _vectorize (Sequence.tokens seq)
                                         (Sequence.intent seq) i)
                         (List.seq 0 (length (Sequence.tokens seq)))) this) with
    | Returned inputVectors =>
        Returned (inputVectors, map compositeLabel (Sequence.tokens seq))
    | Thrown e => Thrown e
    end.
Proof.
  unfold crfExample.
  pose proof (mapM_paired
                (fun i => _vectorize (Sequence.tokens seq) (Sequence.intent seq) i)
                (fun i => from_option compositeLabel "" (Sequence.tokens seq !! i))
                (List.seq 0 (length (Sequence.tokens seq))) this
                (fun i => vectorize_reads id _ _ i)) as H.
  rewrite result_bind_reads
    by (apply preserves_mapM; intros i; apply preserves_bind;
        [apply vectorize_reads | intros v; apply preserves_ret]).
  destruct (result (run (mapM (fun i => _vectorize _ _ i) _) this)) as [vs|e].
  - destruct H as (rows & -> & Hf & Hs). simpl.
    rewrite Hf, Hs, lookup_all. reflexivity.
  - rewrite H. reflexivity.
Qed.

End Labels.

(** C6, as the code has it.  The example built for a sequence exists
    exactly when all its positions vectorize, and its labels are the
    composite labels of the tokens, in order.  The composite label of a
    token is its tag alone when the token has no slot name (none, or the
    empty string) and [tag-slot] otherwise; the tag itself is not looked
    at.  Where the tokens without a slot name are exactly the [OUT]
    tokens, that is the tag alone for [OUT] and [tag-slot] otherwise. *)
Theorem crf_labels_follow_slot `{TK : Toolkit} (this : CRFExtractor) (seq : Sequence) :
  result (run (crfExample seq) this)
  = match result (run (mapM (fun i => _vectorize (Sequence.tokens seq)
                                         (Sequence.intent seq) i)
                         (List.seq 0 (length (Sequence.tokens seq)))) this) with
    | Returned inputVectors =>
        Returned (inputVectors, map compositeLabel (Sequence.tokens seq))
    | Thrown e => Thrown e
    end
  /\ forall token : Token,
       (Token.slot token = None \/ Token.slot token = Some "" ->
        compositeLabel token = BIO.str (Token.tag token))
       /\ (forall s, Token.slot token = Some s -> s <> "" ->
                     compositeLabel token = BIO.str (Token.tag token) +:+ "-" +:+ s)
       /\ ((Token.tag token = OUT <->
            Token.slot token = None \/ Token.slot token = Some "") ->
           compositeLabel token
           = match Token.tag token with
             | OUT => BIO.OUT
             | t => BIO.str t +:+ "-" +:+ default "" (Token.slot token)
             end).
Proof.
  split; [apply crfExample_result|].
  intros token.
  assert (H1 : Token.slot token = None \/ Token.slot token = Some "" ->
               compositeLabel token = BIO.str (Token.tag token)).
  { unfold compositeLabel. intros [-> | ->]; simpl; apply append_empty_r. }
  assert (H2 : forall s, Token.slot token = Some s -> s <> "" ->
               compositeLabel token = BIO.str (Token.tag token) +:+ "-" +:+ s).
  { unfold compositeLabel. intros s -> Hs.
    destruct (String.eqb_spec s ""); [contradiction | reflexivity]. }
  split; [exact H1|]. split; [exact H2|].
  intros Hiff. destruct (Token.tag token) eqn:Et.
  - apply H1. apply Hiff. reflexivity.
  - destruct (Token.slot token) as [s|] eqn:Es.
    + destruct (String.eqb_spec s "") as [->|Hs].
      * assert (BEGINNING = OUT) by (apply Hiff; auto). discriminate.
      * simpl. apply H2; auto.
    + assert (BEGINNING = OUT) by (apply Hiff; auto). discriminate.
  - destruct (Token.slot token) as [s|] eqn:Es.
    + destruct (String.eqb_spec s "") as [->|Hs].
      * assert (INSIDE = OUT) by (apply Hiff; auto). discriminate.
      * simpl. apply H2; auto.
    + assert (INSIDE = OUT) by (apply Hiff; auto). discriminate.
Qed.

Lemma crf_labels_follow_slot_witness :
  compositeLabel (mkToken "Kanye" 17 22 BEGINNING (Some "artist")) = "B-artist"
  /\ compositeLabel (mkToken "play" 0 4 OUT None) = "o".
Proof.
  split.
  - destruct (@crf_labels_follow_slot (scripted kanyeWest) newExtractor
                (Sequence.mk [] "play")) as [_ H].
    destruct (H (mkToken "Kanye" 17 22 BEGINNING (Some "artist"))) as (_ & H2 & _).
    apply (H2 "artist"); [reflexivity | discriminate].
  - destruct (@crf_labels_follow_slot (scripted kanyeWest) newExtractor
                (Sequence.mk [] "play")) as [_ H].
    destruct (H (mkToken "play" 0 4 OUT None)) as (H1 & _).
    apply H1. left. reflexivity.
Defined.

(** The claim of C6 fails where tag and slot name disagree: an [OUT]
    token that carries a slot name is labelled [o-song], not [o], and a
    [BEGINNING] token without one is labelled [B]. *)
Lemma crf_label_ignores_tag_counterexample :
  result (run (crfExample
                 (Sequence.mk [ mkToken "Thriller" 0 8 OUT (Some "song") ] "play"))
            (@newExtractor (scripted kanyeWest)))
  = Returned ([ [ "w[0]bos"; "w[0]intent=play"; "w[0]title"; "w[0]entity=none";
                  "w[0]eos" ] ],
              [ "o-song" ])
  /\ "o-song" <> BIO.OUT
  /\ compositeLabel (mkToken "Thriller" 0 8 BEGINNING None) = "B"
  /\ "B" <> BIO.BEGINNING +:+ "-".
Proof.
  split; [vm_compute; reflexivity|].
  split; [discriminate|]. split; [reflexivity | discriminate].
Qed.

(* ---------------------------------------------------------------------- *)
(** ** Clustering *)

Section Clustering.
Context {TK : Toolkit}.

Lemma wordVectors_all (this : CRFExtractor) (ft : FastText) (tokens : list Token)
    (data : list WordVector) :
  _ft this = Some ft ->
  Forall2 (fun t v => ft_wordVectors ft (Token.value t) = Returned v) tokens data ->
  run (mapM (fun t => ft ← field _ft;
                      call (EvWordVectors (Token.value t))
                           (ft_wordVectors ft (Token.value t))) tokens) this
  = mkRun this (map (fun t => EvWordVectors (Token.value t)) tokens) (Returned data).
Proof.
  intros Hft H. induction H as [|t v tokens data Hv _ IH].
  - reflexivity.
  - cbn [mapM map]. rewrite run_bind.
    assert (E : run (ft ← field _ft;
                     call (EvWordVectors (Token.value t))
                          (ft_wordVectors ft (Token.value t))) this
                = mkRun this [EvWordVectors (Token.value t)] (Returned v)).
    { unfold field. rewrite !run_bind. simpl. rewrite Hft. simpl.
      unfold call. rewrite Hv. reflexivity. }
    rewrite E. simpl. rewrite run_bind, IH. simpl. rewrite app_nil_r. reflexivity.
Qed.

Lemma trainKmeans_run (this : CRFExtractor) (sequences : list Sequence)
    (ft : FastText) (data : list WordVector) :
  _ft this = Some ft ->
  Forall2 (fun t v => ft_wordVectors ft (Token.value t) = Returned v)
          (flat_map Sequence.tokens sequences) data ->
  run (_trainKmeans sequences) this
  = let asked := map (fun t => EvWordVectors (Token.value t))
                     (flat_map Sequence.tokens sequences) in
    match kmeans data K_CLUSTERS with
    | Returned km =>
        mkRun (set_kmeansModel km this)
              (asked ++ [EvKmeans data K_CLUSTERS]) (Returned tt)
    | Thrown e =>
        mkRun this
              (asked ++ [EvKmeans data K_CLUSTERS;
                         EvConsoleError "error tra ining Kmeans"])
              (Thrown e)
    end.
Proof.
  intros Hft H. unfold _trainKmeans. rewrite run_bind.
  rewrite (wordVectors_all _ _ _ _ Hft H). simpl.
  unfold try_catch, run. simpl.
  destruct (kmeans data K_CLUSTERS); simpl; rewrite ?app_nil_r; reflexivity.
Qed.

End Clustering.




(* ---------------------------------------------------------------------- *)
(** ** Assembling slots *)

(** What an [INSIDE] pair does to a slot that is already there: the text
    goes to [source]; [value] stays. *)
Lemma assembleStep_inside (slots : list SlotDefinition) (entitites : list Entity)
    (slotCollection : SlotsCollection) (token : Token) (tag : string) (s : Slot) :
  charAt 0 tag = Some BIO.INSIDE ->
  slotCollection !! slice 2 tag = Some (Single s) ->
  assembleStep slots entitites slotCollection (token, tag)
  = Returned (<[slice 2 tag :=
                  Single (Slot.mk (Slot.name s) (Slot.value s) (Slot.entity s)
                            (appendSource (Slot.source s) (Token.value token)))]>
                slotCollection).
Proof.
  intros Ht Hs. unfold assembleStep. rewrite Hs, Ht.
  rewrite bool_decide_eq_true_2 by reflexivity. reflexivity.
Qed.

(** What a [BEGINNING] pair does to an array that is already there. *)
Lemma assembleStep_push (slots : list SlotDefinition) (entitites : list Entity)
    (slotCollection : SlotsCollection) (token : Token) (tag : string)
    (items : list Slot) (src : option string) :
  charAt 0 tag = Some BIO.BEGINNING ->
  slotCollection !! slice 2 tag = Some (Many items src) ->
  assembleStep slots entitites slotCollection (token, tag) = Thrown TypeError.
Proof.
  intros Ht Hs. unfold assembleStep. rewrite Hs, Ht.
  rewrite bool_decide_eq_false_2 by discriminate.
  rewrite bool_decide_eq_true_2 by reflexivity. reflexivity.
Qed.

(** C1 at the example of the specification.  Tokens [Kanye], [West] tagged
    [B-artist], [I-artist], no entity: the slot keeps the value [Kanye];
    the second token goes to a [source] property that was never set, which
    reads [undefined West].  The result is not the slot of value
    [Kanye West] that the specification and the comment above [extract]
    describe. *)
Theorem extract_inside_leaves_value :
  result (run (extract "Kanye West" playIntent []) (trainedExtractor kanyeWest))
  = Returned {[ "artist" :=
                  Single (Slot.mk "artist" (JStr "Kanye") None
                            (Some "undefined West")) ]}
  /\ result (run (extract "Kanye West" playIntent []) (trainedExtractor kanyeWest))
     <> Returned {[ "artist" :=
                      Single (Slot.mk "artist" (JStr "Kanye West") None None) ]}.
Proof.
  assert (E : result (run (extract "Kanye West" playIntent [])
                        (trainedExtractor kanyeWest))
              = Returned {[ "artist" :=
                              Single (Slot.mk "artist" (JStr "Kanye") None
                                        (Some "undefined West")) ]}).
  { vm_compute. reflexivity. }
  split; [exact E|]. rewrite E. intros H.
  apply (f_equal (fun o : outcome SlotsCollection =>
                    match o with
                    | Returned m => m !! "artist"
                    | Thrown _ => None
                    end)) in H.
  cbv beta iota in H. rewrite !lookup_singleton_eq in H. discriminate H.
Qed.

(** C2 at three spans of one name.  Two [B-song] pairs give the array of
    the two slots in order; a third one makes [extract] throw a
    [TypeError]: the code pushes onto a property of the slot name, not
    onto the array in the collection. *)
Theorem extract_third_beginning_throws :
  result (run (extract "Thriller and Bad" playIntent []) (trainedExtractor twoSongs))
  = Returned {[ "song" :=
                  Many [ Slot.mk "song" (JStr "Thriller") None None;
                         Slot.mk "song" (JStr "Bad") None None ] None ]}
  /\ result (run (extract "Thriller Bad Beat" playIntent [])
               (trainedExtractor threeSongs))
     = Thrown TypeError.
Proof.
  split; vm_compute; reflexivity.
Qed.

(* ---------------------------------------------------------------------- *)
(** ** Which pairs reach the reducer *)

Lemma combine_In_lookup {A B : Type} (xs : list A) (ys : list B) (a : A) (b : B) :
  In (a, b) (combine xs ys) <->
  exists i : nat, xs !! i = Some a /\ ys !! i = Some b.
Proof.
  split.
  - intros H. destruct (combine_lookup _ _ _ _ H) as (i & _ & Hx & Hy). eauto.
  - revert ys. induction xs as [|x xs IH]; intros ys (i & Hx & Hy).
    + destruct i; discriminate Hx.
    + destruct ys as [|y ys]; [destruct i; discriminate Hy|].
      destruct i as [|i]; simpl in Hx, Hy.
      * left. congruence.
      * right. apply IH. eauto.
Qed.

Lemma declared_find (slots : list SlotDefinition) (n : string) :
  (exists d, find (slotDefNamed n) slots = Some d) <->
  exists d, In d slots /\ SlotDefinition.name d = n.
Proof.
  split.
  - intros [d H]. apply find_some in H. destruct H as [Hin Hn].
    apply String.eqb_eq in Hn. eauto.
  - intros (d & Hin & Hn).
    destruct (find (slotDefNamed n) slots) as [d'|] eqn:E; [eauto|].
    pose proof (find_none _ _ E d Hin) as F. unfold slotDefNamed in F.
    rewrite Hn, String.eqb_refl in F. discriminate F.
Qed.

Lemma keepPair_spec (slots : list SlotDefinition) (token : Token) (tag : string) :
  keepPair slots (Some token, Some tag) = true <->
  tag <> "" /\ tag <> BIO.OUT
  /\ exists d, In d slots /\ SlotDefinition.name d = slice 2 tag.
Proof.
  rewrite <- declared_find. unfold keepPair.
  generalize (slice 2 tag). intros n.
  destruct (String.eqb_spec tag "") as [->|H1]; cbn [orb].
  { split; [discriminate | intros (H & _); contradiction]. }
  destruct (String.eqb_spec tag BIO.OUT) as [->|H2]; cbn [orb].
  { split; [discriminate | intros (_ & H & _); contradiction]. }
  destruct (find (slotDefNamed n) slots) as [d|].
  - split; [eauto | reflexivity].
  - split; [discriminate | intros (_ & _ & d & H); discriminate H].
Qed.

(** X1.  A (token, tag) pair reaches the reducer of [extract] exactly when
    token and tag sit at the same index of their arrays, the tag is
    neither empty nor [OUT], and the tag's suffix after two characters is
    the name of a slot the intent declares. *)
Theorem kept_pair_iff (tokens : list Token) (tags : list string)
    (slots : list SlotDefinition) (token : Token) (tag : string) :
  In (token, tag) (keptPairs tokens tags slots) <->
  (exists i : nat, tokens !! i = Some token /\ tags !! i = Some tag)
  /\ tag <> "" /\ tag <> BIO.OUT
  /\ exists d, In d slots /\ SlotDefinition.name d = slice 2 tag.
Proof.
  rewrite keptPairs_combine, filter_In, combine_In_lookup. cbn [fst snd].
  rewrite keepPair_spec. reflexivity.
Qed.

(* ---------------------------------------------------------------------- *)
(** ** What the reducer builds *)

Lemma makeSlot_name slotName token slots entitites :
  Slot.name (_makeSlot slotName token slots entitites) = slotName.
Proof. reflexivity. Qed.

Lemma assembleStep_insert slots entitites (c c' : SlotsCollection) p :
  assembleStep slots entitites c p = Returned c' ->
  exists e, c' = <[pairName p := e]> c
            /\ ((forall e0, c !! pairName p = Some e0 -> entryNamed (pairName p) e0) ->
                entryNamed (pairName p) e)
            /\ (rank (Some e) <= S (rank (c !! pairName p)))%nat.
Proof.
  destruct p as [token tag]. unfold assembleStep, pairName. cbn [snd].
  generalize (slice 2 tag). intros n.
  destruct (c !! n) as [[s|items src]|] eqn:E;
    destruct (bool_decide (charAt 0 tag = Some BIO.INSIDE));
    destruct (bool_decide (charAt 0 tag = Some BIO.BEGINNING));
    intros [= <-];
    eexists; (split; [reflexivity|]); simpl; (split; [|lia]); intros Hn;
    try reflexivity; try (exact (Hn _ eq_refl)).
  all: repeat constructor; exact (Hn _ eq_refl).
Qed.

Lemma assemble_invariants slots entitites pairs (c c' : SlotsCollection) :
  assemble slots entitites pairs c = Returned c' ->
  dom c' = dom c ∪ list_to_set (map pairName pairs)
  /\ ((forall n e, c !! n = Some e -> entryNamed n e) ->
      forall n e, c' !! n = Some e -> entryNamed n e).
Proof.
  revert c. induction pairs as [|p pairs IH]; intros c H; simpl in H.
  - revert H. intros [= <-]. simpl. split; [|auto].
    symmetry. apply (right_id_L ∅ (∪)).
  - destruct (assembleStep slots entitites c p) as [c1|] eqn:E; [|discriminate H].
    destruct (assembleStep_insert _ _ _ _ _ E) as (e & -> & Hn & _).
    destruct (IH _ H) as [Hd Hk]. split.
    + rewrite Hd, dom_insert_L. simpl.
      rewrite (comm_L (∪) {[pairName p]} (dom c)), <- (assoc_L (∪)). reflexivity.
    + intros Hc. apply Hk. intros n e0 Hl.
      destruct (decide (pairName p = n)) as [<-|Hne].
      * rewrite lookup_insert_eq in Hl. apply (inj Some) in Hl. subst e0.
        apply Hn. intros e1. apply Hc.
      * rewrite lookup_insert_ne in Hl by exact Hne. apply (Hc _ _ Hl).
Qed.

Lemma occurrences_cons n p pairs :
  occurrences n (p :: pairs)
  = ((if String.eqb (pairName p) n then 1 else 0) + occurrences n pairs)%nat.
Proof.
  unfold occurrences. simpl. destruct (String.eqb (pairName p) n); reflexivity.
Qed.

Lemma assemble_returns_bounded slots entitites pairs (c : SlotsCollection) :
  (forall n, rank (c !! n) + occurrences n pairs <= 2)%nat ->
  exists c', assemble slots entitites pairs c = Returned c'.
Proof.
  revert c. induction pairs as [|p pairs IH]; intros c H; simpl.
  - eauto.
  - assert (Hp : (rank (c !! pairName p) <= 1)%nat).
    { specialize (H (pairName p)). rewrite occurrences_cons, String.eqb_refl in H.
      lia. }
    destruct (assembleStep slots entitites c p) as [c1|e] eqn:E.
    + destruct (assembleStep_insert _ _ _ _ _ E) as (e1 & -> & _ & Hr).
      apply IH. intros n. specialize (H n). rewrite occurrences_cons in H.
      destruct (String.eqb_spec (pairName p) n) as [Heq|Hne].
      * rewrite <- Heq in *. rewrite lookup_insert_eq. lia.
      * rewrite lookup_insert_ne by exact Hne. lia.
    + exfalso. clear H IH. destruct p as [token tag].
      unfold assembleStep, pairName in *. cbn [snd] in *.
      revert E Hp. generalize (slice 2 tag). intros n E Hp.
      destruct (c !! n) as [[s|items src]|];
        destruct (bool_decide (charAt 0 tag = Some BIO.INSIDE));
        destruct (bool_decide (charAt 0 tag = Some BIO.BEGINNING));
        try discriminate E; simpl in Hp; lia.
Qed.



Lemma extract_result `{TK : Toolkit} (this : CRFExtractor) text intentDef entitites :
  let seq := generatePredictionSequence text (IntentDefinition.name intentDef)
               entitites in
  result (run (extract text intentDef entitites) this)
  = match result (run (_tag seq) this) with
    | Returned tags =>
        assemble (IntentDefinition.slots intentDef) entitites
          (keptPairs (Sequence.tokens seq) tags (IntentDefinition.slots intentDef)) ∅
    | Thrown e => Thrown e
    end.
Proof.
  intros seq. unfold extract. fold seq.
  rewrite result_bind_reads by apply tag_reads. reflexivity.
Qed.



(* ---------------------------------------------------------------------- *)
(** ** Training labels and prediction tags *)

(** X4.  The label built for a training token that carries a non-empty
    slot name reads back the way [extract] reads a predicted tag: its
    first character is the token's BIO letter, its suffix after two
    characters is the slot name, and the filter keeps it exactly when the
    intent declares that slot.  The label of an [OUT] token without a
    slot name is [OUT] itself, which the filter drops. *)
Theorem training_label_reads_back (token : Token) (s : string) :
  Token.slot token = Some s -> s <> "" ->
  charAt 0 (compositeLabel token) = Some (BIO.str (Token.tag token))
  /\ slice 2 (compositeLabel token) = s
  /\ (forall slots other,
        keepPair slots (Some other, Some (compositeLabel token)) = true <->
        exists d, In d slots /\ SlotDefinition.name d = s)
  /\ (forall out slots other,
        Token.tag out = OUT -> Token.slot out = None ->
        keepPair slots (Some other, Some (compositeLabel out)) = false).
Proof.
  intros Hs Hne.
  assert (E : compositeLabel token = BIO.str (Token.tag token) +:+ "-" +:+ s).
  { unfold compositeLabel. rewrite Hs.
    destruct (String.eqb_spec s ""); [contradiction | reflexivity]. }
  assert (E0 : charAt 0 (compositeLabel token) = Some (BIO.str (Token.tag token))).
  { rewrite E. destruct (Token.tag token); reflexivity. }
  assert (E2 : slice 2 (compositeLabel token) = s).
  { rewrite E. destruct (Token.tag token); reflexivity. }
  split; [exact E0|]. split; [exact E2|]. split.
  - intros slots other. rewrite keepPair_spec, E2. split.
    + intros (_ & _ & H). exact H.
    + intros H. split; [|split; [|exact H]].
      * rewrite E. destruct (Token.tag token); discriminate.
      * rewrite E. destruct (Token.tag token); discriminate.
  - intros out slots other Ht Ho. unfold compositeLabel. rewrite Ht, Ho.
    reflexivity.
Qed.

Lemma training_label_reads_back_witness :
  charAt 0 (compositeLabel (mkToken "West" 23 27 INSIDE (Some "artist"))) = Some "I"
  /\ slice 2 (compositeLabel (mkToken "West" 23 27 INSIDE (Some "artist"))) = "artist".
Proof.
  destruct (training_label_reads_back (mkToken "West" 23 27 INSIDE (Some "artist"))
              "artist" eq_refl ltac:(discriminate)) as (H0 & H2 & _).
  split; [exact H0 | exact H2].
Defined.

(* ---------------------------------------------------------------------- *)
(** ** Fresh slots *)

(** X5.  A slot made by [_makeSlot] never has an undefined value: it is
    the token's text unless an entity is attached, in which case it is that
    entity's defined [data.value] or, failing that, again the token's
    text.  An attached entity always has the entity type of the first
    definition of the slot name and starts no later and ends no earlier
    than the token. *)
Theorem makeSlot_value_defined (slotName : string) (token : Token)
    (slotDefinitions : list SlotDefinition) (entitites : list Entity) :
  let slot := _makeSlot slotName token slotDefinitions entitites in
  Slot.value slot <> JUndefined
  /\ (Slot.entity slot = None -> Slot.value slot = JStr (Token.value token))
  /\ (forall e, Slot.entity slot = Some e ->
        (Slot.value slot = Entity.value (Entity.data e)
         \/ (Entity.value (Entity.data e) = JUndefined
             /\ Slot.value slot = JStr (Token.value token)))
        /\ exists d, find (slotDefNamed slotName) slotDefinitions = Some d
                     /\ SlotDefinition.entity d = Entity.name e
                     /\ Entity.start (Entity.meta e) <= Token.start token
                     /\ Token.end_ token <= Entity.end_ (Entity.meta e))
  /\ (find (slotDefNamed slotName) slotDefinitions = None ->
      Slot.entity slot = None).
Proof.
  unfold _makeSlot. cbv zeta. simpl.
  destruct (find (slotDefNamed slotName) slotDefinitions) as [d|] eqn:Ed.
  - destruct (find (covers d token) entitites) as [e|] eqn:Ee.
    + apply find_some in Ee. destruct Ee as [_ Hc]. apply covers_spec in Hc.
      unfold get_data_value.
      split; [destruct (Entity.value (Entity.data e)); discriminate|].
      split; [discriminate|]. split; [|discriminate].
      intros e' [= <-]. split.
      * destruct (Entity.value (Entity.data e)); auto.
      * exists d. split; [reflexivity|]. intuition lia.
    + split; [discriminate|]. split; [reflexivity|]. split; [discriminate|].
      discriminate.
  - split; [discriminate|]. split; [reflexivity|]. split; [discriminate|].
    reflexivity.
Qed.

(* ---------------------------------------------------------------------- *)
(** ** The embedding stage *)

Lemma append_assoc (a b c : string) : (a +:+ b) +:+ c = a +:+ (b +:+ c).
Proof.
  induction a as [|x a IH]; [reflexivity|].
  change (String x ((a +:+ b) +:+ c) = String x (a +:+ (b +:+ c))).
  rewrite IH. reflexivity.
Qed.

Lemma corpus_lines (samples : list Sequence) (acc : string) :
  fold_left (fun corpus seq => corpus +:+ cannonicSentence seq +:+ newline) samples acc
  = acc +:+ fold_right (fun seq rest => cannonicSentence seq +:+ newline +:+ rest)
              "" samples.
Proof.
  revert acc. induction samples as [|seq samples IH]; intros acc; simpl.
  - symmetry. apply append_empty_r.
  - rewrite IH, !append_assoc. reflexivity.
Qed.

(** X6.  With its two temporary files created and the corpus written, the
    embedding stage makes exactly four calls: the model file, the training
    file, the write of the corpus to the training file, and the fastText
    training on that same file.  The corpus is one line per training
    sequence, in order, each the canonical sentence of the sequence
    followed by a newline.  If fastText returns, [_ft] is the trained
    handle; if it throws, the stage throws the same exception and [_ft] is
    left as the handle it created before training.  Either way
    [_ftModelFn] is the model file.  If the first temporary file cannot be
    created, the extractor is left untouched. *)
Theorem embedding_stage_run `{TK : Toolkit} (this : CRFExtractor)
    (samples : list Sequence) (modelFn trainFn : string) :
  let trainContent :=
    fold_right (fun seq rest => cannonicSentence seq +:+ newline +:+ rest)
               "" samples in
  let r := run (_trainLanguageModel samples) this in
  (forall e, tmp_fileSync ".bin" = Thrown e ->
             r = mkRun this [EvTmpFile ".bin"] (Thrown e))
  /\ (tmp_fileSync ".bin" = Returned modelFn ->
      tmp_fileSync ".txt" = Returned trainFn ->
      fs_writeFileSync trainFn trainContent = Returned tt ->
      trace r = [ EvTmpFile ".bin"; EvTmpFile ".txt";
                  EvWriteFile trainFn trainContent; EvFtTrain trainFn ]
      /\ _ftModelFn (final r) = modelFn
      /\ match ft_train (ft_new modelFn) trainFn trainContent FT_PARAMS with
         | Returned ft =>
             result r = Returned tt
             /\ final r = set_ft ft (set_ftModelFn modelFn this)
         | Thrown e =>
             result r = Thrown e
             /\ final r = set_ft (ft_new modelFn) (set_ftModelFn modelFn this)
         end).
Proof.
  intros trainContent r. subst r. unfold _trainLanguageModel.
  assert (Ec : fold_left
                 (fun corpus seq =>
                    corpus +:+
                    join " "
                      (map (fun s => match Token.tag s with
                                     | OUT => Token.value s
                                     | _ => default "" (Token.slot s)
                                     end) (Sequence.tokens seq)) +:+ newline)
                 samples "" = trainContent).
  { change (fold_left (fun corpus seq => corpus +:+ cannonicSentence seq +:+ newline)
              samples "" = trainContent).
    rewrite corpus_lines. reflexivity. }
  rewrite Ec. split.
  - intros e He. rewrite run_bind. unfold call at 1, run at 2. simpl.
    rewrite He. reflexivity.
  - intros Hb Ht Hw.
    unfold run, mbind, M_bind, call, modify. simpl.
    rewrite Hb. simpl. rewrite Ht. simpl. rewrite Hw. simpl.
    destruct (ft_train (ft_new modelFn) trainFn trainContent FT_PARAMS);
      simpl; auto.
Qed.

Lemma embedding_stage_run_witness :
  let r := run (_trainLanguageModel tinyCorpus) (@newExtractor (scripted kanyeWest)) in
  trace r = [ EvTmpFile ".bin"; EvTmpFile ".txt";
              EvWriteFile "/tmp/tmp-1.txt" ("some music" +:+ newline);
              EvFtTrain "/tmp/tmp-1.txt" ]
  /\ _ftModelFn (final r) = "/tmp/tmp-1.bin"
  /\ result r = Returned tt
  /\ final r = @set_ft (scripted kanyeWest) true
                 (set_ftModelFn "/tmp/tmp-1.bin" newExtractor).
Proof.
  intros r.
  destruct (@embedding_stage_run (scripted kanyeWest) newExtractor tinyCorpus
              "/tmp/tmp-1.bin" "/tmp/tmp-1.txt") as [_ H].
  destruct (H eq_refl eq_refl eq_refl) as (H1 & H2 & H3).
  split; [exact H1|]. split; [exact H2|]. exact H3.
Defined.

(* ---------------------------------------------------------------------- *)
(** ** Tagging leaves the extractor alone *)

(** X7.  Whatever they return or throw, [_vectorize], [_tag] and [extract]
    write no field of the extractor: the state after the call is the
    state before it.  A call is therefore not affected by the calls to
    them that came before. *)
Theorem tagging_never_writes `{TK : Toolkit} (this : CRFExtractor) :
  (forall tokens intentName idx,
     final (run (_vectorize tokens intentName idx) this) = this)
  /\ (forall seq, final (run (_tag seq) this) = this)
  /\ (forall text intentDef entitites,
        final (run (extract text intentDef entitites) this) = this)
  /\ (forall seq text intentDef entitites,
        run (_tag seq) (final (run (extract text intentDef entitites) this))
        = run (_tag seq) this
        /\ run (extract text intentDef entitites) (final (run (_tag seq) this))
           = run (extract text intentDef entitites) this).
Proof.
  split; [|split; [|split]].
  - intros. apply (vectorize_reads id).
  - intros. apply (tag_reads id).
  - intros. apply (extract_reads id).
  - intros. split.
    + f_equal. apply (extract_reads id).
    + f_equal. apply (tag_reads id).
Qed.

(* ---------------------------------------------------------------------- *)
(** ** A completed training *)

Ltac keeps_field :=
  repeat first
    [ progress intros
    | apply preserves_ret | apply preserves_throw | apply preserves_get
    | apply preserves_call | apply preserves_log | apply preserves_lift
    | apply preserves_field
    | apply crfExample_reads
    | apply preserves_modify; reflexivity
    | apply preserves_mapM
    | apply preserves_try_catch
    | apply preserves_if
    | apply preserves_bind ].

Section Completed.
Context {TK : Toolkit}.

Lemma trainKmeans_keeps_ft sequences : preserves _ft (_trainKmeans sequences).
Proof. unfold _trainKmeans. keeps_field. Qed.

Lemma trainCrf_keeps_ft sequences : preserves _ft (_trainCrf sequences).
Proof. unfold _trainCrf. keeps_field. Qed.

Lemma trainCrf_keeps_kmeans sequences : preserves _kmeansModel (_trainCrf sequences).
Proof. unfold _trainCrf. keeps_field. Qed.

Lemma run_call_bind {A B : Type} ev (o : outcome A) (k : A -> M B)
    (this : CRFExtractor) :
  run (call ev o ≫= k) this
  = match o with
    | Returned a =>
        mkRun (final (run (k a) this)) (ev :: trace (run (k a) this))
              (result (run (k a) this))
    | Thrown e => mkRun this [ev] (Thrown e)
    end.
Proof. rewrite run_bind. unfold call at 1 2 3. simpl. destruct o; reflexivity. Qed.

Lemma run_modify_bind {B : Type} (f : CRFExtractor -> CRFExtractor)
    (k : unit -> M B) (this : CRFExtractor) :
  run (modify f ≫= k) this
  = mkRun (final (run (k tt) (f this))) (trace (run (k tt) (f this)))
          (result (run (k tt) (f this))).
Proof. reflexivity. Qed.

Lemma run_try_catch {A : Type} (m : M A) (h : exn -> M A) (this : CRFExtractor) :
  run (try_catch m h) this
  = match result (run m this) with
    | Returned _ => run m this
    | Thrown e =>
        mkRun (final (run (h e) (final (run m this))))
              (trace (run m this) ++ trace (run (h e) (final (run m this))))
              (result (run (h e) (final (run m this))))
    end.
Proof. reflexivity. Qed.

Lemma trainLanguageModel_sets_ft (this : CRFExtractor) samples :
  result (run (_trainLanguageModel samples) this) = Returned tt ->
  is_Some (_ft (final (run (_trainLanguageModel samples) this))).
Proof.
  unfold _trainLanguageModel. rewrite run_call_bind.
  destruct (tmp_fileSync ".bin"); [|discriminate].
  rewrite run_modify_bind, run_call_bind.
  destruct (tmp_fileSync ".txt"); [|discriminate].
  rewrite run_modify_bind, run_call_bind.
  destruct (fs_writeFileSync _ _); [|discriminate].
  rewrite run_call_bind.
  destruct (ft_train _ _ _ _); [|discriminate].
  simpl. eauto.
Qed.

Lemma trainKmeans_sets_model (this : CRFExtractor) sequences :
  result (run (_trainKmeans sequences) this) = Returned tt ->
  is_Some (_kmeansModel (final (run (_trainKmeans sequences) this))).
Proof.
  unfold _trainKmeans. rewrite run_bind.
  destruct (result (run (mapM _ _) this)); [|discriminate].
  rewrite run_try_catch, run_call_bind.
  destruct (kmeans _ _); [|discriminate].
  simpl. eauto.
Qed.

(** What a returning CRF stage leaves: the model file it named, holding
    what the trainer wrote for the examples of the sequences. *)
Lemma trainCrf_returns (this : CRFExtractor) sequences :
  result (run (_trainCrf sequences) this) = Returned tt ->
  exists modelFn examples model,
    tmp_fileSync ".bin" = Returned modelFn
    /\ result (run (mapM crfExample sequences) (set_crfModelFn modelFn this))
       = Returned examples
    /\ crf_train CRF_TRAINER_PARAMS examples modelFn = Returned model
    /\ _crfModelFn (final (run (_trainCrf sequences) this)) = modelFn
    /\ crfModelFile (final (run (_trainCrf sequences) this)) = Some model.
Proof.
  unfold _trainCrf. rewrite run_call_bind.
  destruct (tmp_fileSync ".bin") as [modelFn|]; [|discriminate].
  rewrite run_modify_bind, run_bind.
  pose proof (preserves_mapM id crfExample sequences (crfExample_reads id)
                (set_crfModelFn modelFn this)) as Hid.
  unfold id in Hid.
  destruct (result (run (mapM crfExample sequences) _)) as [examples|] eqn:Ex;
    [|discriminate].
  rewrite Hid, run_call_bind.
  destruct (crf_train CRF_TRAINER_PARAMS examples modelFn) as [model|] eqn:Em;
    [|discriminate].
  intros _. exists modelFn, examples, model. simpl. auto.
Qed.

End Completed.

(** X8.  When [train] returns, the extractor is complete: [_isTrained] is
    true, the embedding and the cluster model are in place, and the tagger
    in place is the one opened on the model file that the CRF trainer
    wrote, under the fixed trainer parameters, for this run. *)
Theorem completed_training `{TK : Toolkit} (this : CRFExtractor) (ts : list Sequence) :
  result (run (train ts) this) = Returned tt ->
  let this' := final (run (train ts) this) in
  _isTrained this' = true
  /\ is_Some (_ft this')
  /\ is_Some (_kmeansModel this')
  /\ exists modelFn examples model tagger,
       crf_train CRF_TRAINER_PARAMS examples modelFn = Returned model
       /\ _crfModelFn this' = modelFn
       /\ crfModelFile this' = Some model
       /\ tagger_open createTagger modelFn (Some model) = Returned tagger
       /\ _tagger this' = Some tagger.
Proof.
  intros H this'. subst this'.
  pose proof (train_stages this ts) as S. cbv zeta in S.
  set (r1 := run (_trainLanguageModel ts) (set_isTrained false this)) in *.
  set (r2 := run (_trainKmeans ts) (final r1)) in *.
  set (r3 := run (_trainCrf ts) (final r2)) in *.
  destruct (result r1) as [[]|] eqn:E1; [|destruct S as [S _]; discriminate (eq_trans (eq_sym H) S)].
  destruct (result r2) as [[]|] eqn:E2; [|destruct S as [S _]; discriminate (eq_trans (eq_sym H) S)].
  destruct (result r3) as [[]|] eqn:E3; [|destruct S as [S _]; discriminate (eq_trans (eq_sym H) S)].
  destruct (trainCrf_returns _ _ E3) as (modelFn & examples & model & _ & _ & Hc & Hf & Hm).
  fold r3 in Hf, Hm.
  pose proof (trainLanguageModel_sets_ft _ _ E1) as F1. fold r1 in F1.
  pose proof (trainKmeans_sets_model _ _ E2) as F2. fold r2 in F2.
  pose proof (trainKmeans_keeps_ft ts (final r1)) as K1. fold r2 in K1.
  pose proof (trainCrf_keeps_ft ts (final r2)) as K2. fold r3 in K2.
  pose proof (trainCrf_keeps_kmeans ts (final r2)) as K3. fold r3 in K3.
  cbv beta iota in S.
  change (_crfModelFn (set_tagger createTagger (final r3)))
    with (_crfModelFn (final r3)) in S.
  change (crfModelFile (set_tagger createTagger (final r3)))
    with (crfModelFile (final r3)) in S.
  rewrite Hf, Hm in S.
  destruct (tagger_open createTagger modelFn (Some model)) as [tagger|] eqn:Eo;
    [|destruct S as [S _]; discriminate (eq_trans (eq_sym H) S)].
  destruct S as [_ ->]. simpl.
  split; [reflexivity|]. split; [rewrite K2, K1; exact F1|].
  split; [rewrite K3; exact F2|].
  exists modelFn, examples, model, tagger. auto.
Qed.

Lemma completed_training_witness :
  let this' := trainedExtractor kanyeWest in
  _isTrained this' = true
  /\ is_Some (_ft this')
  /\ is_Some (_kmeansModel this')
  /\ is_Some (_tagger this').
Proof.
  destruct (@completed_training (scripted kanyeWest) newExtractor corpus
              ltac:(vm_compute; reflexivity))
    as (H1 & H2 & H3 & _ & _ & _ & tagger & _ & _ & _ & _ & H4).
  split; [exact H1|]. split; [exact H2|]. split; [exact H3|].
  unfold trainedExtractor. rewrite H4. eauto.
Defined.

(* ---------------------------------------------------------------------- *)
(** ** The order of the calls *)

Section Emits.
Context {TK : Toolkit} (P : Event -> Prop).

Lemma emits_ret {A : Type} (a : A) : emits P (mret a).
Proof. intros this. constructor. Qed.

Lemma emits_throw {A : Type} (e : exn) : emits P (@throw _ A e).
Proof. intros this. constructor. Qed.

Lemma emits_get : emits P get.
Proof. intros this. constructor. Qed.

Lemma emits_modify f : emits P (modify f).
Proof. intros this. constructor. Qed.

Lemma emits_lift {A : Type} (o : outcome A) : emits P (lift o).
Proof. intros this. constructor. Qed.

Lemma emits_call {A : Type} ev (o : outcome A) : P ev -> emits P (call ev o).
Proof. intros H this. repeat constructor. exact H. Qed.

Lemma emits_log ev : P ev -> emits P (log ev).
Proof. intros H this. repeat constructor. exact H. Qed.

Lemma emits_bind {A B : Type} (m : M A) (k : A -> M B) :
  emits P m -> (forall a, emits P (k a)) -> emits P (m ≫= k).
Proof.
  intros Hm Hk this. rewrite run_bind.
  destruct (result (run m this)) as [a|e]; simpl.
  - apply Forall_app. split; [apply Hm | apply Hk].
  - apply Hm.
Qed.

Lemma emits_try_catch {A : Type} (m : M A) (h : exn -> M A) :
  emits P m -> (forall e, emits P (h e)) -> emits P (try_catch m h).
Proof.
  intros Hm Hh this. rewrite run_try_catch.
  destruct (result (run m this)) as [a|e]; simpl.
  - apply Hm.
  - apply Forall_app. split; [apply Hm | apply Hh].
Qed.

Lemma emits_mapM {A B : Type} (g : A -> M B) (l : list A) :
  (forall a, emits P (g a)) -> emits P (mapM g l).
Proof.
  intros Hg. induction l as [|a l IH]; simpl.
  - apply emits_ret.
  - apply emits_bind; [apply Hg|]. intros b.
    apply emits_bind; [apply IH|]. intros bs. apply emits_ret.
Qed.

Lemma emits_field {A : Type} (g : CRFExtractor -> option A) : emits P (field g).
Proof.
  intros this. unfold field. rewrite run_bind. simpl.
  destruct (g this); constructor.
Qed.

Lemma emits_if {A : Type} (b : bool) (m1 m2 : M A) :
  emits P m1 -> emits P m2 -> emits P (if b then m1 else m2).
Proof. destruct b; auto. Qed.

End Emits.

Ltac emitting :=
  repeat first
    [ progress intros
    | apply emits_ret | apply emits_throw | apply emits_get
    | apply emits_modify | apply emits_lift | apply emits_field
    | apply emits_call; reflexivity
    | apply emits_log; reflexivity
    | apply emits_mapM
    | apply emits_try_catch
    | apply emits_if
    | apply emits_bind ].

Section Order.
Context {TK : Toolkit}.

Lemma vectorizeToken_calls token intentName featPrefix includeCluster :
  emits (fun ev => isClusteringCall ev = false /\ isCrfCall ev = false
                   /\ isTaggerCall ev = false)
        (_vectorizeToken token intentName featPrefix includeCluster).
Proof.
  unfold _vectorizeToken, _getWordCluster. destruct token; emitting.
  all: apply emits_call; auto.
Qed.

Lemma vectorize_calls tokens intentName idx :
  emits (fun ev => isClusteringCall ev = false /\ isCrfCall ev = false
                   /\ isTaggerCall ev = false)
        (_vectorize tokens intentName idx).
Proof.
  unfold _vectorize. emitting; apply vectorizeToken_calls.
Qed.

Lemma trainLanguageModel_calls samples :
  emits (fun ev => isClusteringCall ev = false /\ isCrfCall ev = false
                   /\ isTaggerCall ev = false)
        (_trainLanguageModel samples).
Proof. unfold _trainLanguageModel. emitting. all: apply emits_call; auto. Qed.

Lemma trainKmeans_calls sequences :
  emits (fun ev => isCrfCall ev = false /\ isTaggerCall ev = false)
        (_trainKmeans sequences).
Proof.
  unfold _trainKmeans. emitting.
  all: first [apply emits_call | apply emits_log]; auto.
Qed.

Lemma emits_impl {A : Type} (P Q : Event -> Prop) (m : M A) :
  (forall ev, P ev -> Q ev) -> emits P m -> emits Q m.
Proof. intros H Hm this. eapply Forall_impl; [apply Hm | exact H]. Qed.

Lemma crfExample_calls seq :
  emits (fun ev => isClusteringCall ev = false /\ isTaggerCall ev = false)
        (crfExample seq).
Proof.
  unfold crfExample. apply emits_bind.
  - apply emits_mapM. intros i. apply emits_bind; [|intros; apply emits_ret].
    eapply emits_impl; [|apply vectorize_calls]. simpl. intuition.
  - intros rows. apply emits_bind; [|intros; apply emits_ret].
    apply emits_log. auto.
Qed.

Lemma trainCrf_calls sequences :
  emits (fun ev => isClusteringCall ev = false /\ isTaggerCall ev = false)
        (_trainCrf sequences).
Proof.
  unfold _trainCrf.
  apply emits_bind; [apply emits_call; auto | intros modelFn].
  apply emits_bind; [apply emits_modify | intros _].
  apply emits_bind; [apply emits_mapM, crfExample_calls | intros examples].
  apply emits_bind; [apply emits_call; auto | intros; apply emits_modify].
Qed.

(** The calls of [train]: those of each stage, for as long as the stages
    return, then the opening of the tagger. *)
Lemma train_trace (this : CRFExtractor) (ts : list Sequence) :
  let r1 := run (_trainLanguageModel ts) (set_isTrained false this) in
  let r2 := run (_trainKmeans ts) (final r1) in
  let r3 := run (_trainCrf ts) (final r2) in
  trace (run (train ts) this)
  = trace r1
    ++ match result r1 with
       | Thrown _ => []
       | Returned _ =>
           trace r2
           ++ match result r2 with
              | Thrown _ => []
              | Returned _ =>
                  trace r3
                  ++ match result r3 with
                     | Thrown _ => []
                     | Returned _ => [EvTaggerOpen (_crfModelFn (final r3))]
                     end
              end
       end.
Proof.
  cbv zeta. unfold train. rewrite run_modify_bind. cbn [trace].
  rewrite run_bind.
  destruct (result (run (_trainLanguageModel ts) (set_isTrained false this)));
    cbn [trace]; [|rewrite app_nil_r; reflexivity].
  f_equal. rewrite run_bind.
  destruct (result (run (_trainKmeans ts) _)); cbn [trace];
    [|rewrite app_nil_r; reflexivity].
  f_equal. rewrite run_bind.
  destruct (result (run (_trainCrf ts) _)); cbn [trace];
    [|rewrite app_nil_r; reflexivity].
  f_equal. rewrite run_modify_bind. cbn [trace]. rewrite run_bind. simpl.
  destruct (tagger_open _ _ _); reflexivity.
Qed.

End Order.

(** X9.  [train] runs its stages strictly one after the other and stops at
    the first that throws: [kmeans] is called only after the embedding
    stage has returned, the CRF trainer is used only after embedding and
    clustering have both returned, and the tagger is opened, once and on
    the model file of the CRF stage, only after all three have returned.
    [train] never asks the tagger for tags. *)
Theorem training_runs_in_order `{TK : Toolkit} (this : CRFExtractor)
    (ts : list Sequence) (ev : Event) :
  In ev (trace (run (train ts) this)) ->
  let r1 := run (_trainLanguageModel ts) (set_isTrained false this) in
  let r2 := run (_trainKmeans ts) (final r1) in
  let r3 := run (_trainCrf ts) (final r2) in
  (isClusteringCall ev = true -> result r1 = Returned tt)
  /\ (isCrfCall ev = true -> result r1 = Returned tt /\ result r2 = Returned tt)
  /\ (isTaggerCall ev = true ->
      result r1 = Returned tt /\ result r2 = Returned tt /\ result r3 = Returned tt
      /\ ev = EvTaggerOpen (_crfModelFn (final r3))).
Proof.
  intros Hin r1 r2 r3. rewrite train_trace in Hin. fold r1 r2 r3 in Hin.
  pose proof (trainLanguageModel_calls ts (set_isTrained false this)) as C1.
  pose proof (trainKmeans_calls ts (final r1)) as C2.
  pose proof (trainCrf_calls ts (final r2)) as C3.
  fold r1 in C1. fold r2 in C2. fold r3 in C3.
  rewrite Forall_forall in C1, C2, C3.
  apply in_app_iff in Hin. destruct Hin as [Hin | Hin].
  { apply list_elem_of_In, C1 in Hin. destruct Hin as (H1 & H2 & H3).
    rewrite H1, H2, H3. repeat split; discriminate. }
  destruct (result r1) as [[]|]; [|destruct Hin].
  apply in_app_iff in Hin. destruct Hin as [Hin | Hin].
  { apply list_elem_of_In, C2 in Hin. destruct Hin as (H2 & H3).
    rewrite H2, H3. repeat split; discriminate. }
  destruct (result r2) as [[]|]; [|destruct Hin].
  apply in_app_iff in Hin. destruct Hin as [Hin | Hin].
  { apply list_elem_of_In, C3 in Hin. destruct Hin as (H1 & H3).
    rewrite H3. repeat split; discriminate. }
  destruct (result r3) as [[]|]; [|destruct Hin].
  destruct Hin as [<- | []]. repeat split; discriminate.
Qed.

Lemma training_runs_in_order_witness :
  let r1 := run (_trainLanguageModel corpus)
              (set_isTrained false (@newExtractor (scripted kanyeWest))) in
  let r2 := run (_trainKmeans corpus) (final r1) in
  let r3 := run (_trainCrf corpus) (final r2) in
  result r1 = Returned tt /\ result r2 = Returned tt /\ result r3 = Returned tt.
Proof.
  intros r1 r2 r3.
  destruct (@training_runs_in_order (scripted kanyeWest) newExtractor corpus
              (EvTaggerOpen "/tmp/tmp-1.bin")) as (_ & _ & H).
  - vm_compute. repeat first [left; reflexivity | right].
  - destruct (H eq_refl) as (H1 & H2 & H3 & _). auto.
Defined.

(* ---------------------------------------------------------------------- *)
(** ** Sequences of read-only calls *)

Section ReadOnlyMapM.
Context {TK : Toolkit}.

Lemma mapM_returned {A B : Type} (g : A -> M B) (l : list A) (this : CRFExtractor)
    (vs : list B) :
  (forall a, preserves id (g a)) ->
  result (run (mapM g l) this) = Returned vs <->
  Forall2 (fun a v => result (run (g a) this) = Returned v) l vs.
Proof.
  intros Hg. revert vs. induction l as [|a l IH]; intros vs.
  - simpl. split.
    + intros [= <-]. constructor.
    + intros H. inversion H. reflexivity.
  - cbn [mapM]. rewrite result_bind_reads by apply Hg.
    destruct (result (run (g a) this)) as [v|e] eqn:Ea.
    + rewrite result_bind_reads by (apply preserves_mapM, Hg).
      destruct (result (run (mapM g l) this)) as [vs'|e] eqn:El.
      * simpl. split.
        -- intros [= <-]. constructor; [exact Ea | apply IH; reflexivity].
        -- intros H. inversion H as [|a' v' l' vs'' Hv Hrest]; subst.
           apply IH in Hrest. congruence.
      * split; [discriminate|].
        intros H. inversion H as [|a' v' l' vs'' Hv Hrest]; subst.
        apply IH in Hrest. discriminate Hrest.
    + split; [discriminate|].
      intros H. inversion H as [|a' v' l' vs'' Hv Hrest]; subst. congruence.
Qed.

Lemma mapM_thrown {A B : Type} (g : A -> M B) (l : list A) (this : CRFExtractor)
    (e : exn) :
  (forall a, preserves id (g a)) ->
  result (run (mapM g l) this) = Thrown e ->
  exists a, In a l /\ result (run (g a) this) = Thrown e.
Proof.
  intros Hg. induction l as [|a l IH]; [discriminate|].
  cbn [mapM]. rewrite result_bind_reads by apply Hg.
  destruct (result (run (g a) this)) as [v|e'] eqn:Ea.
  - rewrite result_bind_reads by (apply preserves_mapM, Hg).
    destruct (result (run (mapM g l) this)) as [vs'|e'] eqn:El; [discriminate|].
    intros [= <-]. destruct (IH eq_refl) as (a' & Hin & Ha).
    exists a'. split; [right; exact Hin | exact Ha].
  - intros [= <-]. exists a. split; [left; reflexivity | exact Ea].
Qed.

Lemma run_field_bind {A B : Type} (f : CRFExtractor -> option A) (k : A -> M B)
    (this : CRFExtractor) :
  run (field f ≫= k) this
  = match f this with
    | Some a =>
        mkRun (final (run (k a) this)) (trace (run (k a) this))
              (result (run (k a) this))
    | None => mkRun this [] (Thrown TypeError)
    end.
Proof.
  rewrite run_bind. unfold field. rewrite run_bind. simpl.
  destruct (f this); reflexivity.
Qed.

(** [_tag] on an extractor whose flag is set. *)
Lemma tag_trained_run (this : CRFExtractor) (seq : Sequence) :
  _isTrained this = true ->
  let vectors :=
    run (mapM (fun i => _vectorize (Sequence.tokens seq) (Sequence.intent seq) i)
              (List.seq 0 (length (Sequence.tokens seq)))) this in
  run (_tag seq) this
  = match result vectors with
    | Returned inputVectors =>
        match _tagger this with
        | Some tagger =>
            mkRun this (trace vectors ++ [EvTaggerTag inputVectors])
                  (tagger_tag tagger inputVectors)
        | None => mkRun this (trace vectors) (Thrown TypeError)
        end
    | Thrown e => mkRun this (trace vectors) (Thrown e)
    end.
Proof.
  intros H vectors. unfold _tag. rewrite run_bind.
  change (run get this) with (mkRun this [] (Returned this)).
  cbn [result final trace]. rewrite H. cbn [negb app].
  assert (Hid : final vectors = this).
  { apply (preserves_mapM id). intros i. apply vectorize_reads. }
  rewrite run_bind. fold vectors.
  destruct (result vectors) as [inputVectors|e]; rewrite Hid; [|reflexivity].
  rewrite run_field_bind. destruct (_tagger this) as [tagger|]; simpl.
  - reflexivity.
  - rewrite app_nil_r. reflexivity.
Qed.

End ReadOnlyMapM.

(** X10.  On a trained extractor, [_tag] hands the tagger one feature
    vector per token, in token order, each the vector of its position, in
    a single call, and returns what the tagger returns.  If some position
    cannot be vectorized, [_tag] throws and the tagger is not called. *)
Theorem tag_hands_vectors_to_tagger `{TK : Toolkit} (this : CRFExtractor)
    (seq : Sequence) (tagger : Tagger) :
  _isTrained this = true ->
  _tagger this = Some tagger ->
  let r := run (_tag seq) this in
  let vectorOf i :=
    result (run (_vectorize (Sequence.tokens seq) (Sequence.intent seq) i) this) in
  (forall inputVectors,
     Forall2 (fun i v => vectorOf i = Returned v)
             (List.seq 0 (length (Sequence.tokens seq))) inputVectors ->
     result r = tagger_tag tagger inputVectors
     /\ length inputVectors = length (Sequence.tokens seq)
     /\ forall ev, In ev (trace r) ->
          isTaggerCall ev = true -> ev = EvTaggerTag inputVectors)
  /\ (forall i e,
        (i < length (Sequence.tokens seq))%nat -> vectorOf i = Thrown e ->
        (exists e', result r = Thrown e')
        /\ forall ev, In ev (trace r) -> isTaggerCall ev = false).
Proof.
  intros Ht Hg r vectorOf. subst r.
  rewrite (tag_trained_run _ _ Ht). cbv zeta. rewrite Hg.
  set (g := fun i => _vectorize (Sequence.tokens seq) (Sequence.intent seq) i).
  assert (Hro : forall i, preserves id (g i)) by (intros i; apply vectorize_reads).
  assert (Hcalls : forall ev,
             In ev (trace (run (mapM g (List.seq 0 (length (Sequence.tokens seq))))
                             this)) ->
             isTaggerCall ev = false).
  { intros ev Hin.
    pose proof (emits_mapM _ g (List.seq 0 (length (Sequence.tokens seq)))
                  (fun i => vectorize_calls (Sequence.tokens seq)
                              (Sequence.intent seq) i) this) as F.
    rewrite Forall_forall in F. apply list_elem_of_In, F in Hin. apply Hin. }
  split.
  - intros inputVectors HF.
    pose proof (Forall2_length _ _ _ HF) as Hlen. rewrite length_seq in Hlen.
    apply (mapM_returned g _ this inputVectors Hro) in HF. rewrite HF.
    cbn [result trace]. split; [reflexivity|]. split; [symmetry; exact Hlen|].
    intros ev Hin Hk. apply in_app_iff in Hin. destruct Hin as [Hin | [<- | []]].
    + rewrite (Hcalls _ Hin) in Hk. discriminate Hk.
    + reflexivity.
  - intros i e Hi He.
    destruct (result (run (mapM g _) this)) as [vs|e'] eqn:Em.
    + exfalso. apply (mapM_returned g _ this vs Hro) in Em.
      assert (Hl : List.seq 0 (length (Sequence.tokens seq)) !! i = Some i).
      { apply lookup_seq. split; [reflexivity | exact Hi]. }
      destruct (Forall2_lookup_l _ _ _ _ _ Em Hl) as (v & _ & Hv).
      unfold vectorOf in He. unfold g in Hv. congruence.
    + cbn [result trace]. split; [eauto | exact Hcalls].
Qed.

Lemma tag_hands_vectors_to_tagger_witness :
  result (run (_tag (Sequence.mk (script_tokens kanyeWest) "play"))
            (trainedExtractor kanyeWest))
  = Returned [ "B-artist"; "I-artist" ].
Proof.
  destruct (@tag_hands_vectors_to_tagger (scripted kanyeWest)
              (trainedExtractor kanyeWest)
              (Sequence.mk (script_tokens kanyeWest) "play") true
              ltac:(vm_compute; reflexivity) ltac:(vm_compute; reflexivity))
    as [H _].
  destruct (H [ [ "w[0]bos";
                  "w[0]intent=play"; "w[0]title"; "w[0]entity=none";
                  "w[1]intent=play"; "w[1]title"; "w[1]cluster=0";
                  "w[1]entity=none" ];
                [ "w[-1]intent=play"; "w[-1]title"; "w[-1]cluster=0";
                  "w[-1]entity=none";
                  "w[0]intent=play"; "w[0]title"; "w[0]entity=none";
                  "w[0]eos" ] ]) as [H1 _].
  - repeat constructor; vm_compute; reflexivity.
  - exact H1.
Defined.

(* ---------------------------------------------------------------------- *)
(** ** Cluster features and the edges of the index range *)

Lemma centre_features_no_cluster token intentName f :
  In f (tokenFeatures token intentName "w[0]" None) ->
  String.prefix "w[0]cluster=" f = false.
Proof.
  unfold tokenFeatures, flag. rewrite !in_app_iff, in_map_iff.
  intros [[H | [H | [H | [H | H]]]] | (ent & H & _)].
  - destruct H as [<- | []]. reflexivity.
  - destruct (isLower _); simpl in H; [destruct H as [<- | []]; reflexivity | destruct H].
  - destruct (isUpper _); simpl in H; [destruct H as [<- | []]; reflexivity | destruct H].
  - destruct (isTitle _); simpl in H; [destruct H as [<- | []]; reflexivity | destruct H].
  - destruct H.
  - subst f. reflexivity.
Qed.

Lemma neighbour_features_cluster token intentName featPrefix c :
  In (featPrefix +:+ "cluster=" +:+ numToString c)
     (tokenFeatures token intentName featPrefix (Some c)).
Proof.
  unfold tokenFeatures. rewrite !in_app_iff. left. do 4 right. left. reflexivity.
Qed.

Section Edges.
Context {TK : Toolkit}.

Lemma neighbour_segment (this : CRFExtractor) token intentName featPrefix v :
  result (run (_vectorizeToken token intentName featPrefix true) this) = Returned v ->
  exists tok c, token = Some tok
                /\ v = tokenFeatures tok intentName featPrefix (Some c).
Proof.
  destruct token as [tok|]; [|discriminate].
  rewrite vectorizeToken_neighbour.
  destruct (result (run (_getWordCluster _) this)) as [c|]; [|discriminate].
  intros [= <-]. eauto.
Qed.

Lemma centre_segment (this : CRFExtractor) token intentName featPrefix v :
  result (run (_vectorizeToken token intentName featPrefix false) this) = Returned v ->
  exists tok, token = Some tok /\ v = tokenFeatures tok intentName featPrefix None.
Proof.
  destruct token as [tok|]; [|discriminate].
  rewrite vectorizeToken_center. intros [= <-]. eauto.
Qed.

End Edges.

(** X11.  No feature of a returned vector is a cluster feature of the
    centre token: the cluster of a word is only ever a feature of its
    neighbours.  Every position that has a left neighbour carries that
    neighbour's cluster as a [w[-1]cluster=] feature, and every position
    that has a right neighbour carries a [w[1]cluster=] feature. *)
Theorem cluster_only_for_neighbours `{TK : Toolkit} (this : CRFExtractor)
    (tokens : list Token) (intentName : string) (idx : nat) (v : list string) :
  result (run (_vectorize tokens intentName idx) this) = Returned v ->
  (forall f, In f v -> String.prefix "w[0]cluster=" f = false)
  /\ (idx <> 0%nat -> exists c, In ("w[-1]cluster=" +:+ numToString c) v)
  /\ (S idx <> length tokens -> exists c, In ("w[1]cluster=" +:+ numToString c) v).
Proof.
  intros Hv. rewrite vectorize_segments in Hv.
  destruct (prevSegment this tokens intentName idx) as [prev|] eqn:Ep;
    [|discriminate Hv].
  destruct (currentSegment this tokens intentName idx) as [current|] eqn:Ec;
    [|discriminate Hv].
  destruct (nextSegment this tokens intentName idx) as [next|] eqn:En;
    [|discriminate Hv].
  revert Hv. intros [= <-].
  unfold prevSegment in Ep. unfold currentSegment in Ec. unfold nextSegment in En.
  destruct (centre_segment _ _ _ _ _ Ec) as (tok & _ & ->).
  split; [|split].
  - intros f Hf. rewrite !in_app_iff in Hf. destruct Hf as [Hf | [Hf | Hf]].
    + destruct (idx =? 0)%nat.
      * revert Ep. intros [= <-]. destruct Hf as [<- | []]. reflexivity.
      * destruct (segment_prefixed _ _ _ _ _ _ _ Ep Hf) as [rest ->]. reflexivity.
    + apply (centre_features_no_cluster _ _ _ Hf).
    + destruct (lastIndex tokens idx).
      * revert En. intros [= <-]. destruct Hf as [<- | []]. reflexivity.
      * destruct (segment_prefixed _ _ _ _ _ _ _ En Hf) as [rest ->]. reflexivity.
  - intros Hne. destruct (Nat.eqb_spec idx 0) as [|_]; [contradiction|].
    destruct (neighbour_segment _ _ _ _ _ Ep) as (t & c & _ & ->).
    exists c. rewrite in_app_iff. left.
    exact (neighbour_features_cluster t intentName "w[-1]" c).
  - intros Hne.
    destruct (lastIndex tokens idx) eqn:El.
    { apply lastIndex_spec in El. contradiction. }
    destruct (neighbour_segment _ _ _ _ _ En) as (t & c & _ & ->).
    exists c. rewrite !in_app_iff. right. right.
    exact (neighbour_features_cluster t intentName "w[1]" c).
Qed.

Lemma cluster_only_for_neighbours_witness :
  Forall (fun f => String.prefix "w[0]cluster=" f = false)
         [ "w[0]bos";
           "w[0]intent=play"; "w[0]title"; "w[0]entity=none";
           "w[1]intent=play"; "w[1]title"; "w[1]cluster=0"; "w[1]entity=none" ]
  /\ exists c,
       In ("w[1]cluster=" +:+ numToString c)
          [ "w[0]bos";
            "w[0]intent=play"; "w[0]title"; "w[0]entity=none";
            "w[1]intent=play"; "w[1]title"; "w[1]cluster=0"; "w[1]entity=none" ].
Proof.
  destruct (@cluster_only_for_neighbours (scripted kanyeWest)
              (trainedExtractor kanyeWest) (script_tokens kanyeWest) "play" 0 _
              ltac:(vm_compute; reflexivity)) as (H & _ & Hn).
  split.
  - apply List.Forall_forall. exact H.
  - apply Hn. simpl. lia.
Defined.

(** X12.  [_vectorize] returns no vector for an index outside the token
    array: the read of the missing token throws.  On the empty array that
    is a [TypeError] thrown before any call.  A one-token sequence is
    vectorized without any call and without any trained model: its vector
    is the start marker, the features of the token, and the end marker. *)
Theorem vectorize_index_range `{TK : Toolkit} (this : CRFExtractor)
    (tokens : list Token) (intentName : string) (idx : nat) :
  ((length tokens <= idx)%nat ->
   exists e, result (run (_vectorize tokens intentName idx) this) = Thrown e)
  /\ (tokens = [] ->
      run (_vectorize tokens intentName 0) this = mkRun this [] (Thrown TypeError))
  /\ (forall token,
        tokens = [token] ->
        run (_vectorize tokens intentName 0) this
        = mkRun this []
            (Returned ("w[0]bos" :: tokenFeatures token intentName "w[0]" None
                         ++ ["w[0]eos"]))).
Proof.
  split; [|split].
  - intros Hlen. rewrite vectorize_segments.
    destruct (prevSegment this tokens intentName idx); [|eauto].
    unfold currentSegment. rewrite (lookup_ge_None_2 tokens idx Hlen).
    simpl. eauto.
  - intros ->. reflexivity.
  - intros token ->. unfold _vectorize.
    change (0 =? 0)%nat with true. change (lastIndex [token] 0) with true.
    change ([token] !! 0%nat) with (Some token). cbv iota.
    rewrite run_bind. change (run (mret ["w[0]bos"]) this)
      with (mkRun this [] (Returned ["w[0]bos"])).
    cbn [result final trace]. rewrite run_bind, vectorizeToken_center.
    cbn [result final trace]. rewrite app_nil_r. reflexivity.
Qed.

Lemma vectorize_index_range_witness :
  exists e,
    result (run (_vectorize (script_tokens kanyeWest) "play" 2)
              (trainedExtractor kanyeWest)) = Thrown e.
Proof.
  destruct (@vectorize_index_range (scripted kanyeWest) (trainedExtractor kanyeWest)
              (script_tokens kanyeWest) "play" 2) as [H _].
  apply H. simpl. lia.
Defined.

(* ---------------------------------------------------------------------- *)
(** ** The examples handed to the CRF trainer *)

(** X13.  When the CRF stage returns, the trainer was given the fixed
    parameters and one example per training sequence, in order; in each
    example the labels are the composite labels of the sequence's tokens
    and there are as many feature vectors as labels, one per token. *)
Theorem crf_examples_shape `{TK : Toolkit} (this : CRFExtractor)
    (sequences : list Sequence) :
  result (run (_trainCrf sequences) this) = Returned tt ->
  exists modelFn examples model,
    crf_train CRF_TRAINER_PARAMS examples modelFn = Returned model
    /\ length examples = length sequences
    /\ Forall2 (fun seq example =>
                  snd example = map compositeLabel (Sequence.tokens seq)
                  /\ length (fst example) = length (Sequence.tokens seq)
                  /\ length (fst example) = length (snd example))
               sequences examples.
Proof.
  intros H.
  destruct (trainCrf_returns _ _ H) as (modelFn & examples & model & _ & He & Hc & _).
  exists modelFn, examples, model. split; [exact Hc|].
  apply (mapM_returned crfExample sequences _ examples
           (fun seq => crfExample_reads id seq)) in He.
  split; [symmetry; eapply Forall2_length, He|].
  eapply Forall2_impl; [exact He|].
  intros seq [vecs labels] Hex. cbn [fst snd].
  rewrite crfExample_result in Hex.
  destruct (result (run (mapM _ _) _)) as [vs|] eqn:Ev; [|discriminate Hex].
  revert Hex. intros [= <- <-].
  apply (mapM_returned _ _ _ vs
           (fun i => vectorize_reads id (Sequence.tokens seq) (Sequence.intent seq) i))
    in Ev.
  apply Forall2_length in Ev. rewrite length_seq in Ev.
  rewrite length_map. auto.
Qed.

Lemma crf_examples_shape_witness :
  exists examples : list (list (list string) * list string),
    length examples = 4%nat
    /\ Forall2 (fun seq example =>
                  snd example = map compositeLabel (Sequence.tokens seq)
                  /\ length (fst example) = length (Sequence.tokens seq)
                  /\ length (fst example) = length (snd example))
               corpus examples.
Proof.
  destruct (@crf_examples_shape (scripted kanyeWest)
              (final (run (_trainKmeans corpus)
                        (final (run (_trainLanguageModel corpus)
                                  (set_isTrained false newExtractor)))))
              corpus ltac:(vm_compute; reflexivity))
    as (_ & examples & _ & _ & Hl & HF).
  exists examples. split; [exact Hl | exact HF].
Defined.

(* ---------------------------------------------------------------------- *)
(** ** Nothing to extract *)

(** X14.  When every predicted tag is empty, [OUT], or names a slot the
    intent does not declare, no pair reaches the reducer and the result is
    the empty collection, not an error; in particular for an intent that
    declares no slot, whatever the tags. *)
Theorem nothing_kept_gives_empty (tokens : list Token) (tags : list string)
    (slots : list SlotDefinition) (entitites : list Entity) :
  (forall tag, In tag tags ->
     tag = "" \/ tag = BIO.OUT
     \/ forall d, In d slots -> SlotDefinition.name d <> slice 2 tag) ->
  keptPairs tokens tags slots = []
  /\ assemble slots entitites (keptPairs tokens tags slots) ∅ = Returned ∅.
Proof.
  intros H.
  assert (E : keptPairs tokens tags slots = []).
  { destruct (keptPairs tokens tags slots) as [|[token tag] rest] eqn:Ek;
      [reflexivity|].
    exfalso.
    assert (Hin : In (token, tag) (keptPairs tokens tags slots))
      by (rewrite Ek; left; reflexivity).
    apply kept_pair_iff in Hin.
    destruct Hin as ((i & _ & Hi) & H1 & H2 & d & Hd & Hn).
    assert (Ht : In tag tags).
    { apply list_elem_of_In, list_elem_of_lookup. eauto. }
    destruct (H tag Ht) as [-> | [-> | Hu]]; [contradiction | contradiction |].
    apply (Hu d Hd Hn). }
  rewrite E. split; reflexivity.
Qed.

Lemma nothing_kept_gives_empty_witness :
  assemble [] []
    (keptPairs (script_tokens kanyeWest) (script_tags kanyeWest) []) ∅
  = Returned ∅.
Proof.
  apply (nothing_kept_gives_empty (script_tokens kanyeWest)
           (script_tags kanyeWest) [] []).
  intros tag _. right. right. intros d [].
Defined.
